(** * SmartTerrarium: frame capture and dataset tools

    A shallow embedding of [src/capture/capture.py] (class
    [CameraFrameCapture]) and of [CleanupResult.success_rate] from
    [src/dataset_tools/image_validator.py], with the properties of the
    design document stated and proved over it.

    Python values are modelled as follows.
    - [int] is [Z] (unbounded); the frame counter, which starts at 0 and is
      only ever incremented, is [N].
    - [float] is an IEEE-754 binary64 number, [spec_float] with precision 53
      and maximal exponent 1024; the arithmetic is the correctly rounded one
      of [SpecFloat].
    - Exceptions are an error result threaded through a state monad whose
      state is the object ([self]) and the outside world (the OpenCV
      backend, the wall clock, the file system, pending cancellation).

    [visualize_frame] and [visualize_stream], which only hand frames to the
    display, are left out.

    The cleanup of [ImageValidator] and the methods of [ImageDeduplicator]
    ([src/dataset_tools/deduplicator.py]) are embedded over worlds of
    their own: the file system and the image library, or the search for
    duplicates, answer as oracles, and the world logs what the program
    removed, searched, drew and printed.  [ImageValidator.__init__], whose
    helpers are not part of the sources at hand, is left out: the
    extensions of a validator are taken as it stores them. *)

From Stdlib Require Import ZArith NArith PArith List String Ascii Bool Lia.
From Stdlib Require Import SpecFloat.
Import ListNotations.

Set Implicit Arguments.

(** ** Python floats *)

Module PyFloat.

Definition float := spec_float.

Definition prec : Z := 53.
Definition emax : Z := 1024.

Definition pos_zero : float := S754_zero false.

(** [float(z)] for an [int] that fits the binary64 range; the result is
    rounded to nearest-even.  Outside the range the rounding yields an
    infinity, which CPython reports as [OverflowError]. *)
Definition of_Z (z : Z) : float := binary_normalize prec emax z 0 false.

Definition sub (x y : float) : float := SFsub prec emax x y.
Definition mul (x y : float) : float := SFmul prec emax x y.

(** [x >= y]: false as soon as one side is NaN. *)
Definition geb (x y : float) : bool :=
  match SFcompare x y with
  | Some Gt | Some Eq => true
  | _ => false
  end.

(** Truth value of a float: everything but the two zeros. *)
Definition truthy (x : float) : bool :=
  match x with
  | S754_zero _ => false
  | _ => true
  end.

(** The integer part of |m * 2^e|, rounding toward zero. *)
Definition trunc_mag (m : positive) (e : Z) : Z :=
  match e with
  | Z0 => Zpos m
  | Zpos p => Z.shiftl (Zpos m) (Zpos p)
  | Zneg p => Z.shiftr (Zpos m) (Zpos p)
  end.

Definition is_finite (x : float) : bool :=
  match x with
  | S754_zero _ | S754_finite _ _ _ => true
  | _ => false
  end.

Definition is_negative (x : float) : bool :=
  match x with
  | S754_finite true _ _ | S754_infinity true => true
  | _ => false
  end.

End PyFloat.

(** ** Exceptions *)

(** Modelled from the spec: the exception classes of
    [src/capture/exceptions.py], which is not part of the sources at hand.
    The design document gives three unrelated classes, [CaptureOpenError],
    [FrameReadError] and [FrameSaveError]; the code imports them as
    [CameraOpenError], [CameraReadError] and [FrameSaveError].  The other
    constructors are the built-in exceptions the embedded code can raise. *)
Inductive exn : Type :=
| CameraOpenError
| CameraReadError
| FrameSaveError
| KeyboardInterrupt
| AttributeError
| ValueError
| OverflowError
| ZeroDivisionError
| OSError
| StopIteration
| CvError.

(** [isinstance(e, Exception)]: [KeyboardInterrupt] derives from
    [BaseException] only. *)
Definition is_Exception (e : exn) : bool :=
  match e with
  | KeyboardInterrupt => false
  | _ => true
  end.

Inductive Res (A : Type) : Type :=
| Ok (a : A)
| Raise (e : exn).
Arguments Raise {A} e.

(** [int(x)] on a float: truncation toward zero, [ValueError] on NaN and
    [OverflowError] on an infinity. *)
Definition int_of_float (x : PyFloat.float) : Res Z :=
  match x with
  | S754_zero _ => Ok 0%Z
  | S754_nan => Raise ValueError
  | S754_infinity _ => Raise OverflowError
  | S754_finite s m e => Ok (cond_Zopp s (PyFloat.trunc_mag m e))
  end.

(** [float(z)] on an int. *)
Definition float_of_int (z : Z) : Res PyFloat.float :=
  match PyFloat.of_Z z with
  | S754_infinity _ => Raise OverflowError
  | x => Ok x
  end.

(** ** Formatting integers *)

Module PyStr.

Definition digit_char (d : N) : ascii := ascii_of_N (48 + d).

(** Decimal digits, least significant first; [fuel] bounds their number. *)
Fixpoint digits_lsb (fuel : nat) (n : N) : list N :=
  match fuel with
  | O => []
  | S fuel' =>
      if (n <? 10)%N then [n]
      else (n mod 10)%N :: digits_lsb fuel' (n / 10)%N
  end.

(** The number a list of digits stands for, least significant first. *)
Definition value_lsb (ds : list N) : N :=
  fold_right (fun d acc => (10 * acc + d)%N) 0%N ds.

(** A number has no more decimal digits than binary ones. *)
Definition digits (n : N) : list N :=
  rev (digits_lsb (S (N.to_nat (N.log2 n))) n).

(** [str(n)], equally [format(n, "d")], for [n >= 0]. *)
Definition decimal (n : N) : string :=
  string_of_list_ascii (map digit_char (digits n)).

(** Padding with zeros on the left up to [width] characters; a longer
    string is left as it is. *)
Definition zfill (width : nat) (s : string) : string :=
  string_of_list_ascii (repeat "0"%char (width - String.length s)) ++ s.

(** [f"{n:06d}"] for [n >= 0]. *)
Definition format_06d (n : N) : string := zfill 6 (decimal n).

(** Reading a string of decimal digits back, most significant first. *)
Definition parse_decimal (s : string) : N :=
  fold_left (fun acc c => (10 * acc + (N_of_ascii c - 48))%N)
            (list_ascii_of_string s) 0%N.

End PyStr.

(** ** The capture session: [src/capture/capture.py] *)

Module Capture.

Import PyFloat.

(** Modelled from the spec: [CameraConfig] of [src/configs/camera.py], which
    is not part of the sources at hand.  The design document lists a source
    (device identifier or path/URL), an optional positive integer width and
    height, an optional positive float frame rate and the colour-conversion
    flag; the field names are the ones [capture.py] reads. *)
Inductive Source : Type :=
| DeviceIndex (i : Z)
| SourceName (s : string).

Record CameraConfig : Type := {
  source : Source;
  width : option Z;
  height : option Z;
  fps : option float;
  convert_to_rgb : bool
}.

Inductive CapProp : Type :=
| CAP_PROP_FRAME_WIDTH
| CAP_PROP_FRAME_HEIGHT
| CAP_PROP_FPS.

Inductive ColorCode : Type :=
| COLOR_BGR2RGB
| COLOR_RGB2BGR.

(** A [cv2.VideoCapture] object is known by its identity; what the native
    resource behind it does is part of the world. *)
Definition VideoCapture := nat.

(** The attributes of a [CameraFrameCapture] instance. *)
Record CameraFrameCapture : Type := {
  config : CameraConfig;
  _cap : option VideoCapture;
  _is_open : bool
}.

(** What became of a capture object: its construction did not open the
    source, or it did, or it did and [release()] has been called since. *)
Inductive CapStatus : Type :=
| Unopened
| Opened
| Released.

Definition was_initialized (c : CapStatus) : bool :=
  match c with
  | Unopened => false
  | _ => true
  end.

Definition is_Opened (c : CapStatus) : bool :=
  match c with
  | Opened => true
  | _ => false
  end.

Definition update {A} (f : VideoCapture -> A) (h : VideoCapture) (a : A)
    : VideoCapture -> A :=
  fun x => if Nat.eqb x h then a else f x.

(** Frames ([numpy.ndarray]), [cv2.cvtColor] and [pathlib.Path] belong to
    libraries outside the repository; the code only moves their values
    around, so they stay abstract, as an interface.  [default_config] is
    [CameraConfig()], the configuration used when none is given. *)
Class Libs : Type := {
  ndarray : Type;
  cvtColor : ndarray -> ColorCode -> ndarray;
  Path : Type;
  Path_of_str : string -> Path;
  truediv : Path -> string -> Path;
  parent : Path -> Path;
  str_of_Path : Path -> string;
  default_config : CameraConfig
}.

Section Embedding.

Context {L : Libs}.

(** An argument annotated [str | Path]. *)
Inductive PathLike : Type :=
| PStr (s : string)
| PPath (p : Path).

(** *** The world *)

(** The OpenCV backend: first what it will answer, then what the program
    has done to it. *)
Record Backend : Type := {
  connects : list bool;
    (** [isOpened()] of the captures constructed next; none left: the source
        cannot be opened *)
  frames : list (option ndarray);
    (** answers of the next [cap.read()] calls: [Some f] is [(True, f)],
        [None] is [(False, None)]; none left: the source is exhausted *)
  cap_props : CapProp -> float;
    (** answers of [cap.get] *)
  release_fails : VideoCapture -> bool;
    (** whether [release()] of an opened capture raises [cv2.error] *)
  next_cap : VideoCapture;
  status : VideoCapture -> CapStatus;
  released : list VideoCapture;
    (** the captures [release()] was called on, latest first *)
  prop_sets : list (VideoCapture * CapProp * float)
    (** the [cap.set] calls made *)
}.

Record Disk : Type := {
  mkdir_fails : Path -> bool;
    (** whether [mkdir(parents=True, exist_ok=True)] raises [OSError] *)
  imwrite_results : list bool;
    (** answers of the next [cv2.imwrite] calls; none left: success *)
  dirs : list Path;
    (** directories [mkdir] was completed on, latest first *)
  files : list (string * ndarray)
    (** files written by [cv2.imwrite], latest first *)
}.

Record World : Type := {
  backend : Backend;
  disk : Disk;
  clock : nat -> float;
    (** the value of the n-th [time.time()] call *)
  clock_reads : nat;
  sigint : option nat
    (** [Some k]: [KeyboardInterrupt] is raised at the (k+1)-th point of
        the recording loop where the interpreter can raise it: the return
        of a call of the [try] block, or the jump back to the head of the
        loop *)
}.

Definition set_backend (w : World) (b : Backend) : World :=
  {| backend := b; disk := disk w; clock := clock w;
     clock_reads := clock_reads w; sigint := sigint w |}.

Definition set_disk (w : World) (d : Disk) : World :=
  {| backend := backend w; disk := d; clock := clock w;
     clock_reads := clock_reads w; sigint := sigint w |}.

Definition set_clock_reads (w : World) (n : nat) : World :=
  {| backend := backend w; disk := disk w; clock := clock w;
     clock_reads := n; sigint := sigint w |}.

Definition set_sigint (w : World) (k : option nat) : World :=
  {| backend := backend w; disk := disk w; clock := clock w;
     clock_reads := clock_reads w; sigint := k |}.

(** *** The monad: [self], the world, and a result or an exception *)

Definition M (A : Type) : Type :=
  CameraFrameCapture -> World -> Res A * CameraFrameCapture * World.

Definition ret {A} (a : A) : M A := fun s w => (Ok a, s, w).

Definition raise {A} (e : exn) : M A := fun s w => (Raise e, s, w).

Definition bind {A B} (m : M A) (k : A -> M B) : M B :=
  fun s w =>
    match m s w with
    | (Ok a, s', w') => k a s' w'
    | (Raise e, s', w') => (Raise e, s', w')
    end.

Notation "x <- m ;; k" := (bind m (fun x => k))
  (at level 61, m at next level, right associativity).
Notation "m ;; k" := (bind m (fun _ => k))
  (at level 61, right associativity).

Definition get_self : M CameraFrameCapture := fun s w => (Ok s, s, w).

Definition set_cap (c : option VideoCapture) : M unit :=
  fun s w =>
    (Ok tt, {| config := config s; _cap := c; _is_open := _is_open s |}, w).

Definition set_is_open (b : bool) : M unit :=
  fun s w =>
    (Ok tt, {| config := config s; _cap := _cap s; _is_open := b |}, w).

Definition lift {A} (r : Res A) : M A := fun s w => (r, s, w).

(** [with contextlib.suppress(cls): m], for the classes [cls] selects. *)
Definition suppress (cls : exn -> bool) (m : M unit) : M unit :=
  fun s w =>
    match m s w with
    | (Raise e, s', w') => if cls e then (Ok tt, s', w') else (Raise e, s', w')
    | r => r
    end.

(** *** The OpenCV calls *)

(** [cv2.VideoCapture(source)]: a new object; the backend decides whether
    the source opened.  The source is passed through opaquely. *)
Definition VideoCapture_new (src : Source) : M VideoCapture :=
  fun s w =>
    let b := backend w in
    let h := next_cap b in
    let ok := hd false (connects b) in
    (Ok h, s,
     set_backend w
       {| connects := tl (connects b); frames := frames b;
          cap_props := cap_props b; release_fails := release_fails b;
          next_cap := S h;
          status := update (status b) h (if ok then Opened else Unopened);
          released := released b; prop_sets := prop_sets b |}).

Definition cap_isOpened (h : VideoCapture) : M bool :=
  fun s w => (Ok (is_Opened (status (backend w) h)), s, w).

(** The world once [release()] has been called on [h]. *)
Definition note_release (w : World) (h : VideoCapture) : World :=
  let b := backend w in
  set_backend w
    {| connects := connects b; frames := frames b;
       cap_props := cap_props b; release_fails := release_fails b;
       next_cap := next_cap b;
       status := update (status b) h
                   (match status b h with
                    | Unopened => Unopened
                    | _ => Released
                    end);
       released := h :: released b; prop_sets := prop_sets b |}.

(** [cap.release()].  Releasing a capture that never opened has nothing to
    do; releasing an opened one may raise [cv2.error]. *)
Definition cap_release (h : VideoCapture) : M unit :=
  fun s w =>
    let b := backend w in
    if was_initialized (status b h) && release_fails b h
    then (Raise CvError, s, note_release w h)
    else (Ok tt, s, note_release w h).

(** [cap.set(prop, value)]: best effort, the returned flag is not used. *)
Definition cap_set (h : VideoCapture) (p : CapProp) (v : float) : M bool :=
  fun s w =>
    let b := backend w in
    (Ok true, s,
     set_backend w
       {| connects := connects b; frames := frames b;
          cap_props := cap_props b; release_fails := release_fails b;
          next_cap := next_cap b; status := status b;
          released := released b; prop_sets := (h, p, v) :: prop_sets b |}).

Definition cap_get (h : VideoCapture) (p : CapProp) : M float :=
  fun s w => (Ok (cap_props (backend w) p), s, w).

(** [cap.read()], as the pair [(ok, frame)]. *)
Definition cap_read (h : VideoCapture) : M (option ndarray) :=
  fun s w =>
    let b := backend w in
    (Ok (hd None (frames b)), s,
     set_backend w
       {| connects := connects b; frames := tl (frames b);
          cap_props := cap_props b; release_fails := release_fails b;
          next_cap := next_cap b; status := status b;
          released := released b; prop_sets := prop_sets b |}).

(** Evaluating [self._cap.<method>]: [AttributeError] when [_cap] is
    [None]. *)
Definition the_cap : M VideoCapture :=
  s <- get_self ;;
  match _cap s with
  | Some cap => ret cap
  | None => raise AttributeError
  end.

(** *** [CameraFrameCapture] *)

Definition __init__ (cfg : option CameraConfig) : CameraFrameCapture :=
  {| config := match cfg with Some c => c | None => default_config end;
     _cap := None;
     _is_open := false |}.

(** [if v is not None: cap.set(prop, float(v))] *)
Definition set_if_given (cap : VideoCapture) (p : CapProp)
    (v : option (Res float)) : M unit :=
  match v with
  | Some r => x <- lift r ;; cap_set cap p x ;; ret tt
  | None => ret tt
  end.

Definition open : M unit :=
  s <- get_self ;;
  if _is_open s then ret tt
  else
    let cfg := config s in
    cap <- VideoCapture_new (source cfg) ;;
    opened <- cap_isOpened cap ;;
    if negb opened then
      cap_release cap ;; raise CameraOpenError
    else
      set_if_given cap CAP_PROP_FRAME_WIDTH
        (option_map float_of_int (width cfg)) ;;
      set_if_given cap CAP_PROP_FRAME_HEIGHT
        (option_map float_of_int (height cfg)) ;;
      set_if_given cap CAP_PROP_FPS (option_map (@Ok float) (fps cfg)) ;;
      set_cap (Some cap) ;;
      set_is_open true.

Definition close : M unit :=
  s <- get_self ;;
  match _cap s with
  | Some cap => suppress is_Exception (cap_release cap)
  | None => ret tt
  end ;;
  set_cap None ;;
  set_is_open false.

Definition ensure_open : M unit :=
  s <- get_self ;;
  if negb (_is_open s) then open else ret tt.

Definition read : M ndarray :=
  ensure_open ;;
  cap <- the_cap ;;
  r <- cap_read cap ;;
  match r with
  | None => raise CameraReadError
  | Some frame =>
      s <- get_self ;;
      if convert_to_rgb (config s)
      then ret (cvtColor frame COLOR_BGR2RGB)
      else ret frame
  end.

(** [int(x or 0)] *)
Definition int_or_0 (x : float) : Res Z :=
  if truthy x then int_of_float x else Ok 0%Z.

(** [float(x or 0.0)] *)
Definition float_or_0 (x : float) : float :=
  if truthy x then x else pos_zero.

(** The integer a finite float stands for once its fraction is dropped:
    0 for a zero, otherwise the magnitude rounded toward zero, with the
    sign of the float. *)
Definition int_part (x : float) : Z :=
  match x with
  | S754_finite sgn m e => cond_Zopp sgn (trunc_mag m e)
  | _ => 0%Z
  end.

Definition get_actual_properties : M (Z * Z * float) :=
  ensure_open ;;
  cap <- the_cap ;;
  w <- cap_get cap CAP_PROP_FRAME_WIDTH ;;
  width <- lift (int_or_0 w) ;;
  cap <- the_cap ;;
  h <- cap_get cap CAP_PROP_FRAME_HEIGHT ;;
  height <- lift (int_or_0 h) ;;
  cap <- the_cap ;;
  f <- cap_get cap CAP_PROP_FPS ;;
  ret (width, height, float_or_0 f).

Definition __enter__ : M unit := open.

Definition __exit__ : M unit := close.

(** The generator made by [__iter__]: its body starts to run at the first
    [next()], is suspended at each [yield] and is over once an exception
    left it. *)
Inductive GenState : Type :=
| GEN_CREATED
| GEN_SUSPENDED
| GEN_CLOSED.

Definition __iter__ : GenState := GEN_CREATED.

Definition __next__ (g : GenState) : M ndarray :=
  match g with
  | GEN_CREATED => ensure_open ;; read
  | GEN_SUSPENDED => read
  | GEN_CLOSED => raise StopIteration
  end.

(** The state of the generator after a [next()] that ended with [r]. *)
Definition gen_after {A} (r : Res A) : GenState :=
  match r with
  | Ok _ => GEN_SUSPENDED
  | Raise _ => GEN_CLOSED
  end.

(** *** Saving frames *)

(** [p.mkdir(parents=True, exist_ok=True)] *)
Definition mkdir (p : Path) : M unit :=
  fun s w =>
    let d := disk w in
    if mkdir_fails d p then (Raise OSError, s, w)
    else (Ok tt, s,
          set_disk w
            {| mkdir_fails := mkdir_fails d;
               imwrite_results := imwrite_results d;
               dirs := p :: dirs d; files := files d |}).

(** [cv2.imwrite(filename, img)], as far as it answers: the call that
    raises [cv2.error] of its own, on a file extension without an encoder
    or on an empty image, is not part of the model. *)
Definition imwrite (filename : string) (img : ndarray) : M bool :=
  fun s w =>
    let d := disk w in
    let ok := hd true (imwrite_results d) in
    (Ok ok, s,
     set_disk w
       {| mkdir_fails := mkdir_fails d;
          imwrite_results := tl (imwrite_results d);
          dirs := dirs d;
          files := if ok then (filename, img) :: files d else files d |}).

(** [x.parent]: a [str] has no such attribute. *)
Definition attr_parent (x : PathLike) : M Path :=
  match x with
  | PPath p => ret (parent p)
  | PStr _ => raise AttributeError
  end.

(** [str(x)] *)
Definition py_str (x : PathLike) : string :=
  match x with
  | PStr s => s
  | PPath p => str_of_Path p
  end.

(** [Path(x)] *)
Definition to_Path (x : PathLike) : Path :=
  match x with
  | PStr s => Path_of_str s
  | PPath p => p
  end.

Definition save_frame (frame : ndarray) (file_path : PathLike) : M PathLike :=
  dir <- attr_parent file_path ;;
  mkdir dir ;;
  let frame_to_save := frame in
  s <- get_self ;;
  let frame_to_save :=
    if convert_to_rgb (config s)
    then cvtColor frame_to_save COLOR_RGB2BGR
    else frame_to_save in
  success <- imwrite (py_str file_path) frame_to_save ;;
  if negb success then raise FrameSaveError
  else ret file_path.

(** *** The recording loop *)

Definition time_time : M float :=
  fun s w => (Ok (clock w (clock_reads w)), s,
              set_clock_reads w (S (clock_reads w))).

(** Cancellation.  The three calls of the [try] block ([time.time()],
    [self.read()], [self.save_frame(...)]) are where the interpreter can
    raise a pending [KeyboardInterrupt]: it does so when the call returns,
    in place of the call's own outcome, the effects of the call being
    done.  A [KeyboardInterrupt] raised at another point of the block is
    not told apart by the result from one raised at the return of the call
    before it: between the return of [save_frame] and the increment of
    [frame_count] the file is written and the counter is not yet updated;
    after the increment the block is as good as complete.  Cancellation is
    modelled from the first pass of the loop on: a [KeyboardInterrupt]
    raised during the set-up of [save_stream], before the [try] is
    entered, reaches the caller and is not part of the model. *)
Definition checkpoint {A} (m : M A) : M A :=
  fun s w =>
    match m s w with
    | (r, s', w') =>
        match sigint w' with
        | None => (r, s', w')
        | Some O => (Raise KeyboardInterrupt, s', set_sigint w' None)
        | Some (S k) => (r, s', set_sigint w' (Some k))
        end
    end.

(** The jump back to the head of the loop.  It lies after the [try]
    statement, outside the range its handlers cover, and it is a point
    where the interpreter raises a pending [KeyboardInterrupt]: raised
    there, the exception meets no handler. *)
Definition back_edge : M unit := checkpoint (ret tt).

(** The local variables of [save_stream] that the loop updates. *)
Record LoopVars : Type := {
  last_save_time : float;
  frame_count : N
}.

(** [f"{filename_prefix}_{frame_count:06d}.jpg"] *)
Definition frame_filename (filename_prefix : string) (n : N) : string :=
  filename_prefix ++ "_" ++ PyStr.format_06d n ++ ".jpg".

(** The body of the [try] block.  The two assignments that end it raise
    nothing of their own, so the variables change only when the block
    completes. *)
Definition loop_try (save_path : Path) (interval : float)
    (filename_prefix : string) (v : LoopVars) : M LoopVars :=
  current_time <- checkpoint time_time ;;
  if geb (sub current_time (last_save_time v)) interval then
    frame <- checkpoint read ;;
    let filename := frame_filename filename_prefix (frame_count v) in
    checkpoint (save_frame frame (PPath (truediv save_path filename))) ;;
    ret {| last_save_time := current_time;
           frame_count := N.succ (frame_count v) |}
  else ret v.

(** [while True: try: ... except KeyboardInterrupt: break
    except CameraReadError: break], then [return save_path, frame_count].
    A pass that completes its [try] block jumps back to the head of the
    loop; an exception raised at the jump leaves [save_stream].
    [None]: the loop is still running after [fuel] iterations. *)
Fixpoint save_stream_loop (fuel : nat) (save_path : Path) (interval : float)
    (filename_prefix : string) (v : LoopVars)
    (s : CameraFrameCapture) (w : World)
    : option (Res (Path * N) * CameraFrameCapture * World) :=
  match fuel with
  | O => None
  | S fuel' =>
      match loop_try save_path interval filename_prefix v s w with
      | (Ok v', s', w') =>
          match back_edge s' w' with
          | (Ok _, s'', w'') =>
              save_stream_loop fuel' save_path interval filename_prefix
                v' s'' w''
          | (Raise e, s'', w'') => Some (Raise e, s'', w'')
          end
      | (Raise KeyboardInterrupt, s', w') =>
          Some (Ok (save_path, frame_count v), s', w')
      | (Raise CameraReadError, s', w') =>
          Some (Ok (save_path, frame_count v), s', w')
      | (Raise e, s', w') => Some (Raise e, s', w')
      end
  end.

Definition loop_start : LoopVars :=
  {| last_save_time := pos_zero; frame_count := 0%N |}.

(** What [save_stream] does before the loop. *)
Definition save_stream_setup (save_path : PathLike) : M Path :=
  ensure_open ;;
  let save_path := to_Path save_path in
  mkdir save_path ;;
  ret save_path.

Definition save_stream (fuel : nat) (save_path : PathLike) (interval : float)
    (filename_prefix : string) (s : CameraFrameCapture) (w : World)
    : option (Res (Path * N) * CameraFrameCapture * World) :=
  match save_stream_setup save_path s w with
  | (Ok p, s1, w1) =>
      save_stream_loop fuel p interval filename_prefix loop_start s1 w1
  | (Raise e, s1, w1) => Some (Raise e, s1, w1)
  end.

(** The first [n] iterations of the loop, when each of them completes its
    [try] block and jumps back to the head of the loop. *)
Fixpoint loop_iter (n : nat) (save_path : Path) (interval : float)
    (filename_prefix : string) (v : LoopVars)
    (s : CameraFrameCapture) (w : World)
    : option (LoopVars * CameraFrameCapture * World) :=
  match n with
  | O => Some (v, s, w)
  | S n' =>
      match loop_try save_path interval filename_prefix v s w with
      | (Ok v', s', w') =>
          match back_edge s' w' with
          | (Ok _, s'', w'') =>
              loop_iter n' save_path interval filename_prefix v' s'' w''
          | (Raise _, _, _) => None
          end
      | (Raise _, _, _) => None
      end
  end.

(** The exceptions the loop has a handler for. *)
Definition handled (e : exn) : bool :=
  match e with
  | KeyboardInterrupt | CameraReadError => true
  | _ => false
  end.

(** A computation leaves one component of the world as it found it. *)
Definition leaves {A X} (proj : World -> X) (m : M A) : Prop :=
  forall s w, proj (snd (m s w)) = proj w.

(** A component of the world that is not part of the backend, or of the
    disk. *)
Definition off_backend {X} (proj : World -> X) : Prop :=
  forall w b, proj (set_backend w b) = proj w.

Definition off_disk {X} (proj : World -> X) : Prop :=
  forall w d, proj (set_disk w d) = proj w.

(** The names of the files written so far, latest first. *)
Definition written (w : World) : list string :=
  map fst (files (disk w)).

(** The name under which the loop saves frame number [n]. *)
Definition frame_path (save_path : Path) (filename_prefix : string) (n : N)
    : string :=
  str_of_Path (truediv save_path (frame_filename filename_prefix n)).

(** The file names numbered [from], [from + 1], ..., [count] of them. *)
Fixpoint frame_filenames (filename_prefix : string) (from : N) (count : nat)
    : list string :=
  match count with
  | O => []
  | S count' =>
      frame_filename filename_prefix from
        :: frame_filenames filename_prefix (N.succ from) count'
  end.

Definition frame_paths (save_path : Path) (filename_prefix : string)
    (from : N) (count : nat) : list string :=
  map (fun name => str_of_Path (truediv save_path name))
      (frame_filenames filename_prefix from count).

(** *** Sequences of calls on one object *)

Definition result {A} (r : Res A * CameraFrameCapture * World) : Res A :=
  fst (fst r).

Definition after {A} (r : Res A * CameraFrameCapture * World)
    : CameraFrameCapture * World :=
  (snd (fst r), snd r).

Inductive Op : Type :=
| Call_init (cfg : option CameraConfig)
| Call_open
| Call_close
| Call_read
| Call_get_actual_properties
| Call_next (g : GenState)
| Call_enter
| Call_exit
| Call_save_frame (frame : ndarray) (file_path : PathLike).

Definition run_op (o : Op) (s : CameraFrameCapture) (w : World)
    : CameraFrameCapture * World :=
  match o with
  | Call_init cfg => (__init__ cfg, w)
  | Call_open => after (open s w)
  | Call_close => after (close s w)
  | Call_read => after (read s w)
  | Call_get_actual_properties => after (get_actual_properties s w)
  | Call_next g => after (__next__ g s w)
  | Call_enter => after (__enter__ s w)
  | Call_exit => after (__exit__ s w)
  | Call_save_frame frame file_path => after (save_frame frame file_path s w)
  end.

Fixpoint run_ops (ops : list Op) (s : CameraFrameCapture) (w : World)
    : CameraFrameCapture * World :=
  match ops with
  | [] => (s, w)
  | o :: ops' =>
      match run_op o s w with
      | (s', w') => run_ops ops' s' w'
      end
  end.

(** [isOpen] holds exactly when the handle is there and was successfully
    initialized. *)
Definition session_inv (s : CameraFrameCapture) (w : World) : Prop :=
  _is_open s = true <->
  exists cap, _cap s = Some cap /\
              was_initialized (status (backend w) cap) = true.

(** Whenever the session is not open, the handle reference is cleared. *)
Definition handle_cleared (s : CameraFrameCapture) : Prop :=
  _is_open s = false -> _cap s = None.

(** The two together: what every reachable state satisfies. *)
Definition session_ok (s : CameraFrameCapture) (w : World) : Prop :=
  session_inv s w /\ handle_cleared s.

(** A computation keeps [session_ok], however it ends. *)
Definition keeps_ok {A} (m : M A) : Prop :=
  forall s w, session_ok s w ->
    session_ok (fst (after (m s w))) (snd (after (m s w))).

(** The object once [close()] has run. *)
Definition closed (s : CameraFrameCapture) : CameraFrameCapture :=
  {| config := config s; _cap := None; _is_open := false |}.

(** The world once [close()] has run on [s]. *)
Definition closed_world (s : CameraFrameCapture) (w : World) : World :=
  match _cap s with
  | Some cap => note_release w cap
  | None => w
  end.

(** *** Frames on their way through the session *)

(** What [read()] returns for the frame [f] of the backend. *)
Definition decoded (s : CameraFrameCapture) (f : ndarray) : ndarray :=
  if convert_to_rgb (config s) then cvtColor f COLOR_BGR2RGB else f.

(** What [save_frame] hands to [cv2.imwrite] for the frame [f]. *)
Definition encoded (s : CameraFrameCapture) (f : ndarray) : ndarray :=
  if convert_to_rgb (config s) then cvtColor f COLOR_RGB2BGR else f.

(** The world once [cap.read()] has taken the next answer of the backend. *)
Definition pop_frame (w : World) : World :=
  let b := backend w in
  set_backend w
    {| connects := connects b; frames := tl (frames b);
       cap_props := cap_props b; release_fails := release_fails b;
       next_cap := next_cap b; status := status b;
       released := released b; prop_sets := prop_sets b |}.

(** [n] calls of [next()] in a row on the generator of [__iter__], as a
    consumer of the stream makes them, with the outcome of each call. *)
Fixpoint nexts (n : nat) (g : GenState) (s : CameraFrameCapture) (w : World)
    : list (Res ndarray) * GenState * CameraFrameCapture * World :=
  match n with
  | O => ([], g, s, w)
  | S n' =>
      match __next__ g s w with
      | (r, s1, w1) =>
          match nexts n' (gen_after r) s1 w1 with
          | (rs, g', s', w') => (r :: rs, g', s', w')
          end
      end
  end.

(** The world once [save_frame] has made the directory [dir] and
    [cv2.imwrite] has answered: with the file it wrote, or with none. *)
Definition after_save (w : World) (dir : Path)
    (file : option (string * ndarray)) : World :=
  let d := disk w in
  set_disk w
    {| mkdir_fails := mkdir_fails d;
       imwrite_results := tl (imwrite_results d);
       dirs := dir :: dirs d;
       files := match file with
                | Some x => x :: files d
                | None => files d
                end |}.

(** The world once [cv2.VideoCapture(source)] has been constructed, the
    backend answering [ok]. *)
Definition acquired (w : World) (ok : bool) : World :=
  let b := backend w in
  set_backend w
    {| connects := tl (connects b); frames := frames b;
       cap_props := cap_props b; release_fails := release_fails b;
       next_cap := S (next_cap b);
       status := update (status b) (next_cap b)
                   (if ok then Opened else Unopened);
       released := released b; prop_sets := prop_sets b |}.

(** The world once the [cap.set] calls [sets] have been made, the latest
    first in the list. *)
Definition applied (w : World) (sets : list (VideoCapture * CapProp * float))
    : World :=
  let b := backend w in
  set_backend w
    {| connects := connects b; frames := frames b;
       cap_props := cap_props b; release_fails := release_fails b;
       next_cap := next_cap b; status := status b;
       released := released b; prop_sets := sets ++ prop_sets b |}.

(** The object once [open()] has stored the capture [cap]. *)
Definition opened_with (s : CameraFrameCapture) (cap : VideoCapture)
    : CameraFrameCapture :=
  {| config := config s; _cap := Some cap; _is_open := true |}.

(** The [cap.set] calls [open()] makes for a configuration, latest
    first. *)
Definition config_sets (cap : VideoCapture) (cfg : CameraConfig)
    : list (VideoCapture * CapProp * float) :=
  (match fps cfg with Some f => [(cap, CAP_PROP_FPS, f)] | None => [] end)
  ++ (match height cfg with
      | Some ht => [(cap, CAP_PROP_FRAME_HEIGHT, of_Z ht)]
      | None => []
      end)
  ++ (match width cfg with
      | Some wd => [(cap, CAP_PROP_FRAME_WIDTH, of_Z wd)]
      | None => []
      end).

(** The configured width and height convert to floats. *)
Definition config_fits (cfg : CameraConfig) : Prop :=
  (forall wd, width cfg = Some wd -> float_of_int wd = Ok (of_Z wd)) /\
  (forall ht, height cfg = Some ht -> float_of_int ht = Ok (of_Z ht)).

(** No capture is open but the one the session holds. *)
Definition sole_capture (s : CameraFrameCapture) (w : World) : Prop :=
  forall h, status (backend w) h = Opened -> _cap s = Some h.

(** [release()] has been called on every capture that opened, but the one
    the session holds. *)
Definition accounted (s : CameraFrameCapture) (w : World) : Prop :=
  forall h, was_initialized (status (backend w) h) = true ->
    _cap s = Some h \/ In h (released (backend w)).

(** The state of a session with the configuration [cfg] that leaks no
    capture. *)
Definition tidy (cfg : CameraConfig) (s : CameraFrameCapture) (w : World)
    : Prop :=
  config s = cfg /\ session_ok s w /\ sole_capture s w /\ accounted s w.

(** A computation keeps a property of the object and the world, however
    it ends. *)
Definition keeps {A} (P : CameraFrameCapture -> World -> Prop) (m : M A)
    : Prop :=
  forall s w, P s w -> P (fst (after (m s w))) (snd (after (m s w))).

Definition is_init (o : Op) : bool :=
  match o with
  | Call_init _ => true
  | _ => false
  end.

End Embedding.

End Capture.

(** ** Exceptions of the dataset tools *)

(** The dataset tools raise, or let through, the exceptions above and three
    more built-in ones. *)
Inductive tool_exn : Type :=
| Builtin (e : exn)
| FileNotFoundError
| TypeError
| UnboundLocalError.

Inductive TRes (A : Type) : Type :=
| TOk (a : A)
| TRaise (e : tool_exn).
Arguments TRaise {A} e.

(** ** The cleanup report: [src/dataset_tools/image_validator.py] *)

Module ImageValidator.

Import PyFloat.

(** [a / b] on two ints: the quotient correctly rounded to a float,
    [ZeroDivisionError] for a zero divisor and [OverflowError] when the
    quotient exceeds the float range.  A zero dividend gives a zero signed
    like the divisor. *)
Definition int_truediv (a b : Z) : Res float :=
  match a, b with
  | _, Z0 => Raise ZeroDivisionError
  | Z0, _ => Ok (S754_zero (b <? 0)%Z)
  | _, _ =>
      match SFdiv_core_binary prec emax (Z.abs a) 0 (Z.abs b) 0 with
      | (q, e, l) =>
          match binary_round_aux prec emax
                  (xorb (a <? 0)%Z (b <? 0)%Z) q e l with
          | S754_infinity _ => Raise OverflowError
          | x => Ok x
          end
      end
  end.

(** [x * n] for a float and an int that converts exactly. *)
Definition float_mul_int (x : float) (n : Z) : float := mul x (of_Z n).

Record CleanupResult (P : Type) : Type := {
  total_processed : Z;
  corrupted_removed : Z;
  removed_files : list P
}.

Definition success_rate {P} (self : CleanupResult P) : Res float :=
  if (total_processed self =? 0)%Z then Ok pos_zero
  else
    match int_truediv (total_processed self - corrupted_removed self)
                      (total_processed self) with
    | Ok q => Ok (float_mul_int q 100)
    | Raise e => Raise e
    end.

(** The share of files kept, in percent, as the design document words it:
    [(total - removed) / total * 100]. *)
Definition percent_kept (total removed : Z) : Res float :=
  match int_truediv (total - removed) total with
  | Ok q => Ok (mul q (of_Z 100))
  | Raise e => Raise e
  end.

(** *** The validator *)

(** [pathlib] and [str.lower] are taken as they are: a type of paths with
    its equality, the suffix of a path and the lower-casing of a string. *)
Class FsLibs : Type := {
  FPath : Type;
  FPath_eqb : FPath -> FPath -> bool;
  suffix : FPath -> string;
  lower : string -> string
}.

Section Validator.

Context {F : FsLibs}.

(** A line of output. *)
Inductive Msg : Type :=
| Found (n : nat)
| Action (dry_run : bool) (p : FPath).

(** The file system and the image library: what they answer, then what
    the program has done. *)
Record FsWorld : Type := {
  dir_exists : FPath -> bool;
    (** [Path.exists()] *)
  rglob : FPath -> list FPath;
    (** what [rglob('*')] yields under a directory, in its order, before
        any removal *)
  is_file : FPath -> bool;
  verifies : FPath -> bool;
    (** whether [Image.open] and [verify()] go through on the file *)
  remove_fails : FPath -> bool;
    (** whether [os.remove] of the existing file raises [OSError] *)
  removed : list FPath;
    (** the files removed so far, latest first *)
  stdout : list Msg
    (** the lines printed so far, latest first *)
}.

Definition mem (p : FPath) (l : list FPath) : bool :=
  existsb (FPath_eqb p) l.

(** The file has not been removed. *)
Definition present (p : FPath) (w : FsWorld) : bool :=
  negb (mem p (removed w)).

Definition print (m : Msg) (w : FsWorld) : FsWorld :=
  {| dir_exists := dir_exists w; rglob := rglob w; is_file := is_file w;
     verifies := verifies w; remove_fails := remove_fails w;
     removed := removed w; stdout := m :: stdout w |}.

(** [os.remove(p)] *)
Definition os_remove (p : FPath) (w : FsWorld) : TRes unit * FsWorld :=
  if negb (present p w) then (TRaise FileNotFoundError, w)
  else if remove_fails w p then (TRaise (Builtin OSError), w)
  else (TOk tt,
        {| dir_exists := dir_exists w; rglob := rglob w;
           is_file := is_file w; verifies := verifies w;
           remove_fails := remove_fails w;
           removed := p :: removed w; stdout := stdout w |}).

(** The attribute of an [ImageValidator]: the extensions, lower-case and
    with their dot, as [__init__] leaves them. *)
Record ImageValidator : Type := {
  extensions : list string
}.

(** [is_corrupted]: [True] when the image opens and verifies, [False] when
    either raises, as it does on a file that is gone. *)
Definition is_corrupted (image_path : FPath) (w : FsWorld) : bool :=
  verifies w image_path && present image_path w.

Definition find_image_files (self : ImageValidator) (dir_path : FPath)
    (w : FsWorld) : list FPath :=
  filter
    (fun file_path =>
       (is_file w file_path && present file_path w)
       && existsb (String.eqb (lower (suffix file_path))) (extensions self))
    (filter (fun p => present p w) (rglob w dir_path)).

(** The [for] loop of [cleanup_corrupted_images]. *)
Fixpoint cleanup_loop (verbose dry_run : bool) (image_files : list FPath)
    (removed_files : list FPath) (w : FsWorld)
    : TRes (list FPath) * FsWorld :=
  match image_files with
  | [] => (TOk removed_files, w)
  | image_path :: rest =>
      if negb (is_corrupted image_path w) then
        match (if negb dry_run then os_remove image_path w
               else (TOk tt, w)) with
        | (TRaise e, w1) => (TRaise e, w1)
        | (TOk _, w1) =>
            let removed_files := removed_files ++ [image_path] in
            let w2 := if verbose then print (Action dry_run image_path) w1
                      else w1 in
            cleanup_loop verbose dry_run rest removed_files w2
        end
      else cleanup_loop verbose dry_run rest removed_files w
  end.

(** A value of the returned dict. *)
Inductive DictVal : Type :=
| DInt (z : Z)
| DPaths (l : list FPath).

Definition cleanup_corrupted_images (self : ImageValidator)
    (images_path : FPath) (verbose dry_run : bool) (w : FsWorld)
    : TRes (list (string * DictVal)) * FsWorld :=
  let images_dir := images_path in
  if negb (dir_exists w images_dir) then (TRaise FileNotFoundError, w)
  else
    let image_files := find_image_files self images_dir w in
    let w := if verbose then print (Found (List.length image_files)) w
             else w in
    match cleanup_loop verbose dry_run image_files [] w with
    | (TRaise e, w') => (TRaise e, w')
    | (TOk removed_files, w') =>
        let result :=
          {| total_processed := Z.of_nat (List.length image_files);
             corrupted_removed := Z.of_nat (List.length removed_files);
             removed_files := removed_files |} in
        (TOk [("total_processed"%string, DInt (total_processed result));
              ("corrupted_removed"%string,
               DInt (corrupted_removed result));
              ("removed_files"%string,
               DPaths (ImageValidator.removed_files result))],
         w')
    end.

(** The files of a list that do not verify. *)
Definition failing (w : FsWorld) (l : list FPath) : list FPath :=
  filter (fun p => negb (verifies w p)) l.

(** The dict for a list of image files and the list of those removed. *)
Definition report (image_files removed_files : list FPath)
    : list (string * DictVal) :=
  [("total_processed"%string, DInt (Z.of_nat (List.length image_files)));
   ("corrupted_removed"%string,
    DInt (Z.of_nat (List.length removed_files)));
   ("removed_files"%string, DPaths removed_files)].

(** Two worlds with the same files, apart from what was removed and
    printed. *)
Definition same_oracle (w w' : FsWorld) : Prop :=
  dir_exists w' = dir_exists w /\ rglob w' = rglob w /\
  is_file w' = is_file w /\ verifies w' = verifies w /\
  remove_fails w' = remove_fails w.

End Validator.

End ImageValidator.

(** ** Removing duplicates: [src/dataset_tools/deduplicator.py] *)

Module Deduplicator.

(** [pathlib] is taken as it is.  [PathLike] is the type [str | Path] of
    the directory arguments. *)
Class DLibs : Type := {
  DPath : Type;
  DPath_eqb : DPath -> DPath -> bool;
  PathLike : Type;
  str_of : PathLike -> string;
    (** [str(image_dir)] *)
  Path_of : PathLike -> DPath;
    (** [Path(image_dir)] *)
  Path_of_name : string -> DPath;
    (** [Path(file)] *)
  joinpath_name : DPath -> string -> DPath;
    (** [image_dir / file] *)
  joinpath : DPath -> DPath -> DPath;
    (** [labels_dir / path] *)
  with_suffix : DPath -> string -> TRes DPath;
    (** [path.with_suffix(s)], which raises on a path with no name *)
  str_of_DPath : DPath -> string
}.

Section Dedup.

Context {D : DLibs}.

(** The dict of the duplicates, in the order of its items. *)
Definition DupMap : Type := list (string * list string).

Record DWorld : Type := {
  cnn_find_duplicates :
    list DPath -> PathLike -> PyFloat.float -> TRes DupMap;
    (** what [CNN.find_duplicates] answers for a directory and a
        threshold, given the files unlinked so far *)
  unlink_error : DPath -> option tool_exn;
    (** whether [unlink()] of the path raises, the first time *)
  cnn_calls : list (PathLike * PyFloat.float);
    (** the calls of [CNN.find_duplicates], latest first *)
  unlinked : list DPath;
    (** the paths unlinked so far, latest first *)
  plots : list (option string * DupMap * string)
    (** the calls of [plot_duplicates], latest first *)
}.

Record ImageDeduplicator : Type := {
  image_dir : option string;
  duplicates_map : option DupMap;
  files_with_duplicates : option (list string);
  duplicates : option (list string)
}.

(** [__init__], without the [CNN] object. *)
Definition init : ImageDeduplicator :=
  {| image_dir := None; duplicates_map := None;
     files_with_duplicates := None; duplicates := None |}.

(** Assignments to the attributes. *)
Definition set_image_dir (v : option string) (self : ImageDeduplicator)
    : ImageDeduplicator :=
  {| image_dir := v; duplicates_map := duplicates_map self;
     files_with_duplicates := files_with_duplicates self;
     duplicates := duplicates self |}.

Definition set_duplicates_map (v : option DupMap)
    (self : ImageDeduplicator) : ImageDeduplicator :=
  {| image_dir := image_dir self; duplicates_map := v;
     files_with_duplicates := files_with_duplicates self;
     duplicates := duplicates self |}.

Definition set_files_with_duplicates (v : option (list string))
    (self : ImageDeduplicator) : ImageDeduplicator :=
  {| image_dir := image_dir self; duplicates_map := duplicates_map self;
     files_with_duplicates := v; duplicates := duplicates self |}.

Definition set_duplicates (v : option (list string))
    (self : ImageDeduplicator) : ImageDeduplicator :=
  {| image_dir := image_dir self; duplicates_map := duplicates_map self;
     files_with_duplicates := files_with_duplicates self;
     duplicates := v |}.

(** A [set] of strings is a list without repetition.  Python does not fix
    the order in which a set is iterated; the model iterates in the order
    of first insertion. *)
Definition set_add (s : list string) (x : string) : list string :=
  if existsb (String.eqb x) s then s else s ++ [x].

(** [s.update(l)] for a list [l] *)
Definition set_update (s : list string) (l : list string) : list string :=
  fold_left set_add l s.

(** The items of a string iterated as a sequence: its characters. *)
Definition chars (x : string) : list string :=
  map (fun c => String c EmptyString) (list_ascii_of_string x).

(** The [for] loop of [find_duplicates]. *)
Fixpoint find_loop (items : DupMap)
    (files_with_duplicates duplicates : list string)
    : list string * list string :=
  match items with
  | [] => (files_with_duplicates, duplicates)
  | (file, dups) :: rest =>
      if (0 <? List.length dups)%nat then
        find_loop rest (set_update files_with_duplicates (chars file))
          (set_update duplicates dups)
      else find_loop rest files_with_duplicates duplicates
  end.

Definition find_duplicates (self : ImageDeduplicator)
    (image_dir : PathLike) (min_similarity_threshold : PyFloat.float)
    (w : DWorld) : TRes DupMap * ImageDeduplicator * DWorld :=
  let self := set_image_dir (Some (str_of image_dir)) self in
  let w' :=
    {| cnn_find_duplicates := cnn_find_duplicates w;
       unlink_error := unlink_error w;
       cnn_calls := (image_dir, min_similarity_threshold) :: cnn_calls w;
       unlinked := unlinked w; plots := plots w |} in
  match cnn_find_duplicates w (unlinked w) image_dir
          min_similarity_threshold with
  | TRaise e => (TRaise e, self, w')
  | TOk m =>
      let (fwd, dups) := find_loop m [] [] in
      (TOk m,
       set_duplicates (Some dups)
         (set_files_with_duplicates (Some fwd)
            (set_duplicates_map (Some m) self)),
       w')
  end.

(** [path.unlink()]: a path already unlinked is not found. *)
Definition unlink (p : DPath) (w : DWorld) : TRes unit * DWorld :=
  if existsb (DPath_eqb p) (unlinked w)
  then (TRaise FileNotFoundError, w)
  else
    match unlink_error w p with
    | Some e => (TRaise e, w)
    | None =>
        (TOk tt,
         {| cnn_find_duplicates := cnn_find_duplicates w;
            unlink_error := unlink_error w;
            cnn_calls := cnn_calls w;
            unlinked := p :: unlinked w; plots := plots w |})
    end.

(** The [for] loop of [delete_duplicates]. *)
Fixpoint delete_loop (image_dir : DPath) (labels_dir : option DPath)
    (dry_run : bool) (dups : list string) (removed_files : list string)
    (w : DWorld) : TRes (list string) * DWorld :=
  match dups with
  | [] => (TOk removed_files, w)
  | file :: rest =>
      let image_path := joinpath_name image_dir file in
      let removed_files := removed_files ++ [str_of_DPath image_path] in
      match (if negb dry_run then unlink image_path w
             else (TOk tt, w)) with
      | (TRaise e, w) => (TRaise e, w)
      | (TOk _, w) =>
          match labels_dir with
          | None =>
              delete_loop image_dir labels_dir dry_run rest removed_files w
          | Some ld =>
              match with_suffix (Path_of_name file) ".txt" with
              | TRaise e => (TRaise e, w)
              | TOk name =>
                  let label_path := joinpath ld name in
                  let removed_files :=
                    removed_files ++ [str_of_DPath label_path] in
                  match (if negb dry_run then unlink label_path w
                         else (TOk tt, w)) with
                  | (TRaise e, w) => (TRaise e, w)
                  | (TOk _, w) =>
                      delete_loop image_dir labels_dir dry_run rest
                        removed_files w
                  end
              end
          end
      end
  end.

Definition delete_duplicates (self : ImageDeduplicator)
    (image_dir : PathLike) (labels_dir : option PathLike)
    (min_similarity_threshold : PyFloat.float) (dry_run : bool) (w : DWorld)
    : TRes (list string) * ImageDeduplicator * DWorld :=
  match (match duplicates_map self with
         | None =>
             let '(r, self, w) :=
               find_duplicates self image_dir min_similarity_threshold w in
             (match r with TOk _ => TOk tt | TRaise e => TRaise e end,
              self, w)
         | Some _ => (TOk tt, self, w)
         end) with
  | (TRaise e, self, w) => (TRaise e, self, w)
  | (TOk _, self, w) =>
      let image_dir := Path_of image_dir in
      let labels_dir := option_map Path_of labels_dir in
      match duplicates self with
      | None => (TRaise TypeError, self, w)
          (** iterating [None] *)
      | Some dups =>
          match delete_loop image_dir labels_dir dry_run dups [] w with
          | (TRaise e, w) => (TRaise e, self, w)
          | (TOk removed_files, w) =>
              let self :=
                if negb dry_run then
                  set_image_dir None
                    (set_duplicates None (set_duplicates_map None self))
                else self in
              (TOk removed_files, self, w)
          end
      end
  end.

(** The argument of [visualize_duplicates]: [str | Path | int]. *)
Inductive Target : Type :=
| TInt (z : Z)
| TName (s : string)
| TPath (p : DPath).

(** [self.files_with_duplicates[target]]: neither a set nor [None] can be
    subscripted. *)
Definition subscript (s : option (list string)) (i : Z) : TRes string :=
  TRaise TypeError.

(** [str(filename)] where the local [filename] has no value yet. *)
Definition str_of_unbound : TRes string :=
  TRaise UnboundLocalError.

Definition plot_duplicates (image_dir : option string)
    (duplicate_map : DupMap) (filename : string) (w : DWorld) : DWorld :=
  {| cnn_find_duplicates := cnn_find_duplicates w;
     unlink_error := unlink_error w;
     cnn_calls := cnn_calls w; unlinked := unlinked w;
     plots := (image_dir, duplicate_map, filename) :: plots w |}.

Definition visualize_duplicates (self : ImageDeduplicator)
    (target : Target) (w : DWorld) : TRes unit * DWorld :=
  match duplicates_map self with
  | None => (TRaise (Builtin ValueError), w)
  | Some m =>
      match (match target with
             | TInt i => subscript (files_with_duplicates self) i
             | _ => str_of_unbound
             end) with
      | TRaise e => (TRaise e, w)
      | TOk filename =>
          (TOk tt, plot_duplicates (image_dir self) m filename w)
      end
  end.

(** Every file named as a duplicate names the file it duplicates, as in
    the answers of [CNN.find_duplicates]. *)
Definition symmetric (m : DupMap) : Prop :=
  forall k l f, In (k, l) m -> In f l ->
    exists l', In (f, l') m /\ In k l'.

End Dedup.

End Deduplicator.

(** ** Concrete instances *)

(** A small instance of the interface, and worlds built on it, for stating
    the properties above on explicit inputs: frames are numbered, paths are
    lists of components. *)
Module Demo.

Import PyFloat Capture.

Definition libs : Libs :=
  {| ndarray := nat;
     cvtColor := fun frame _ => frame;
     Path := list string;
     Path_of_str := fun s => [s];
     truediv := fun p name => p ++ [name];
     parent := @removelast string;
     str_of_Path := String.concat "/";
     default_config :=
       {| source := DeviceIndex 0; width := None; height := None;
          fps := None; convert_to_rgb := false |} |}.

Definition world (connects : list bool) (frames : list (option nat))
    (props : CapProp -> float) (clock : nat -> float)
    (writes : list bool) (sigint : option nat) : @World libs :=
  {| backend :=
       @Build_Backend libs connects frames props (fun _ => false) 0
         (fun _ => Unopened) [] [];
     disk := @Build_Disk libs (fun _ => false) writes [] [];
     clock := clock; clock_reads := 0; sigint := sigint |}.

(** A backend reporting 640 x 480 and no frame rate. *)
Definition props_640_480 (p : CapProp) : float :=
  match p with
  | CAP_PROP_FRAME_WIDTH => of_Z 640
  | CAP_PROP_FRAME_HEIGHT => of_Z 480
  | CAP_PROP_FPS => pos_zero
  end.

(** A backend reporting the width -1, as some do for a property they do
    not know. *)
Definition props_negative_width (p : CapProp) : float :=
  match p with
  | CAP_PROP_FRAME_WIDTH => of_Z (-1)
  | CAP_PROP_FRAME_HEIGHT => of_Z 480
  | CAP_PROP_FPS => of_Z 30
  end.

(** A clock that always reads 1700000000 seconds after the epoch. *)
Definition frozen_clock (_ : nat) : float := of_Z 1700000000.

Definition session : CameraFrameCapture := @__init__ libs None.

End Demo.

(** ** Further worked inputs *)

Module Examples.

Import PyFloat Capture.

(** A configuration asking for 640 x 480. *)
Definition config_640 : CameraConfig :=
  {| source := DeviceIndex 0; width := Some 640%Z; height := Some 480%Z;
     fps := None; convert_to_rgb := false |}.

Definition session_640 : CameraFrameCapture :=
  @__init__ Demo.libs (Some config_640).

(** A camera that opens, with its frames and the outcomes of the writes
    to come. *)
Definition camera (frames : list (option nat)) (writes : list bool)
    : @World Demo.libs :=
  Demo.world [true] frames Demo.props_640_480 Demo.frozen_clock writes
    None.

(** A camera that does not open. *)
Definition no_camera : @World Demo.libs :=
  Demo.world [false] [] Demo.props_640_480 Demo.frozen_clock [] None.

(** The session and the world after [open()]. *)
Definition opened_session : CameraFrameCapture :=
  fst (after (@open Demo.libs Demo.session (camera [] []))).

Definition opened_camera (frames : list (option nat)) (writes : list bool)
    : @World Demo.libs :=
  snd (after (@open Demo.libs Demo.session (camera frames writes))).

(** A camera that opens, on a disk where no directory can be made. *)
Definition camera_full_disk : @World Demo.libs :=
  set_disk (camera [Some 7] [])
    (@Build_Disk Demo.libs (fun _ => true) [] [] []).

(** [Path.name] and [Path.suffix] on a string: the part after the last
    slash, and of it the part from the last dot, when that dot is neither
    the first nor the last character of the name. *)
Fixpoint has_slash (p : string) : bool :=
  match p with
  | EmptyString => false
  | String c r => Ascii.eqb c "/" || has_slash r
  end.

Fixpoint name_of (p : string) : string :=
  match p with
  | EmptyString => EmptyString
  | String c r => if has_slash p then name_of r else p
  end.

Fixpoint from_last_dot (x : string) : string :=
  match x with
  | EmptyString => EmptyString
  | String c r =>
      match from_last_dot r with
      | EmptyString => if Ascii.eqb c "." then x else EmptyString
      | y => y
      end
  end.

Definition suffix_of (p : string) : string :=
  match name_of p with
  | EmptyString => EmptyString
  | String _ r =>
      match from_last_dot r with
      | String _ EmptyString => EmptyString
      | y => y
      end
  end.

Definition lower_ascii (c : ascii) : ascii :=
  let n := nat_of_ascii c in
  if ((65 <=? n) && (n <=? 90))%nat then ascii_of_nat (n + 32) else c.

Fixpoint lower_of (x : string) : string :=
  match x with
  | EmptyString => EmptyString
  | String c r => String (lower_ascii c) (lower_of r)
  end.

Definition fs_libs : ImageValidator.FsLibs :=
  {| ImageValidator.FPath := string;
     ImageValidator.FPath_eqb := String.eqb;
     ImageValidator.suffix := suffix_of;
     ImageValidator.lower := lower_of |}.

Definition validator : ImageValidator.ImageValidator :=
  {| ImageValidator.extensions := [".jpg"; ".png"]%string |}.

(** A directory with one image that verifies, two that do not, a text
    file and a sub-directory. *)
Definition dataset : @ImageValidator.FsWorld fs_libs :=
  @ImageValidator.Build_FsWorld fs_libs
    (String.eqb "data")
    (fun d =>
       if String.eqb d "data"
       then ["data/a.jpg"; "data/b.JPG"; "data/notes.txt"; "data/raw";
             "data/c.png"]%string
       else [])
    (fun p => negb (String.eqb p "data/raw"))
    (String.eqb "data/a.jpg")
    (fun _ => false)
    [] [].

(** The path without its last suffix. *)
Definition stem_of (p : string) : string :=
  substring 0 (String.length p - String.length (suffix_of p)) p.

Definition dedup_libs : Deduplicator.DLibs :=
  {| Deduplicator.DPath := string;
     Deduplicator.DPath_eqb := String.eqb;
     Deduplicator.PathLike := string;
     Deduplicator.str_of := fun x => x;
     Deduplicator.Path_of := fun x => x;
     Deduplicator.Path_of_name := fun x => x;
     Deduplicator.joinpath_name := fun d f => (d ++ "/" ++ f)%string;
     Deduplicator.joinpath := fun d f => (d ++ "/" ++ f)%string;
     Deduplicator.with_suffix :=
       fun p x =>
         if String.eqb p "" then TRaise (Builtin ValueError)
         else TOk (stem_of p ++ x)%string;
     Deduplicator.str_of_DPath := fun x => x |}.

(** Two copies of one image and an image of its own. *)
Definition copies : Deduplicator.DupMap :=
  [("a.jpg", ["b.jpg"]); ("b.jpg", ["a.jpg"]); ("c.jpg", [])]%string.

Definition photos : @Deduplicator.DWorld dedup_libs :=
  @Deduplicator.Build_DWorld dedup_libs
    (fun _ _ _ => TOk copies) (fun _ => None) [] [] [].

End Examples.

(** * Properties *)

Import PyFloat Capture.

(** ** Python floats *)

(** Subtracting [+0.0] changes nothing, whatever the float. *)
Lemma sub_pos_zero (x : float) : sub x pos_zero = x.
Proof. destruct x as [[|]|[|]| |]; reflexivity. Qed.

(** With the default interval 0.0 the gate lets every clock reading
    through that is a number and not negative. *)
Lemma geb_pos_zero (x : float) :
  x <> S754_nan -> is_negative x = false -> geb x pos_zero = true.
Proof.
  destruct x as [[|]|[|]| |[|] m e]; simpl; intros Hn Hs;
    try reflexivity; try discriminate.
  now elim Hn.
Qed.

(** ** Formatting *)

Section Formatting.

Import PyStr.

Lemma digits_lsb_value (fuel : nat) (n : N) :
  (n < 2 ^ N.of_nat fuel)%N -> value_lsb (digits_lsb fuel n) = n.
Proof.
  revert n. induction fuel as [|fuel IH]; intros n H.
  - simpl in *. lia.
  - cbn [digits_lsb]. destruct (N.ltb_spec n 10) as [Hlt|Hge].
    + simpl. lia.
    + cbn [value_lsb fold_right]. fold (value_lsb (digits_lsb fuel (n / 10))).
      rewrite IH.
      * pose proof (N.div_mod n 10). lia.
      * rewrite Nat2N.inj_succ, N.pow_succ_r' in H.
        apply N.Div0.div_lt_upper_bound. lia.
Qed.

Lemma digits_lsb_small (fuel : nat) (n : N) :
  Forall (fun d => (d < 10)%N) (digits_lsb fuel n).
Proof.
  revert n. induction fuel as [|fuel IH]; intros n; cbn [digits_lsb].
  - constructor.
  - destruct (N.ltb_spec n 10) as [Hlt|Hge].
    + constructor; [assumption|constructor].
    + constructor; [|apply IH]. apply N.mod_lt. lia.
Qed.

(** A number below [10^k] has at most [k] digits. *)
Lemma digits_lsb_length (fuel : nat) (n : N) (k : nat) :
  (n < 10 ^ N.of_nat k)%N -> 1 <= k -> List.length (digits_lsb fuel n) <= k.
Proof.
  revert n k. induction fuel as [|fuel IH]; intros n k H Hk; cbn [digits_lsb].
  - simpl. lia.
  - destruct (N.ltb_spec n 10) as [Hlt|Hge]; [simpl; lia|].
    destruct k as [|[|k]]; [lia| simpl in H; lia|].
    cbn [List.length]. apply le_n_S. apply IH; [|lia].
    rewrite Nat2N.inj_succ, N.pow_succ_r' in H.
    apply N.Div0.div_lt_upper_bound. lia.
Qed.

Lemma digits_value (n : N) : value_lsb (rev (digits n)) = n.
Proof.
  unfold digits. rewrite rev_involutive. apply digits_lsb_value.
  rewrite Nat2N.inj_succ, N2Nat.id.
  destruct n as [|p]; [reflexivity|].
  apply N.log2_spec. lia.
Qed.

Lemma digit_char_value (d : N) :
  (d < 10)%N -> (N_of_ascii (digit_char d) - 48)%N = d.
Proof.
  intros H. unfold digit_char. rewrite N_ascii_embedding; lia.
Qed.

Lemma list_ascii_of_string_app (a b : string) :
  list_ascii_of_string (a ++ b)
  = (list_ascii_of_string a ++ list_ascii_of_string b)%list.
Proof. induction a as [|c a IH]; simpl; [reflexivity|now rewrite IH]. Qed.

Lemma parse_digit_chars (ds : list N) (acc : N) :
  Forall (fun d => (d < 10)%N) ds ->
  fold_left (fun acc c => (10 * acc + (N_of_ascii c - 48))%N)
            (map digit_char ds) acc
  = fold_left (fun acc d => (10 * acc + d)%N) ds acc.
Proof.
  revert acc. induction ds as [|d ds IH]; intros acc H; simpl.
  - reflexivity.
  - inversion H; subst. rewrite digit_char_value by assumption.
    now apply IH.
Qed.

Lemma parse_decimal_decimal (n : N) : parse_decimal (decimal n) = n.
Proof.
  unfold parse_decimal, decimal.
  rewrite list_ascii_of_string_of_list_ascii.
  rewrite parse_digit_chars.
  - rewrite <- (digits_value n) at 2. unfold value_lsb.
    rewrite <- fold_left_rev_right. reflexivity.
  - unfold digits. apply Forall_rev. apply digits_lsb_small.
Qed.

Lemma parse_zeros (k : nat) (l : list ascii) :
  fold_left (fun acc c => (10 * acc + (N_of_ascii c - 48))%N)
            (repeat "0"%char k ++ l)%list 0%N
  = fold_left (fun acc c => (10 * acc + (N_of_ascii c - 48))%N) l 0%N.
Proof. induction k as [|k IH]; simpl; [reflexivity|exact IH]. Qed.

(** The number can be read back from the padded string, so the format
    gives different strings to different numbers. *)
Lemma parse_decimal_format_06d (n : N) : parse_decimal (format_06d n) = n.
Proof.
  unfold format_06d, zfill, parse_decimal.
  rewrite list_ascii_of_string_app, list_ascii_of_string_of_list_ascii.
  rewrite parse_zeros. exact (parse_decimal_decimal n).
Qed.

Lemma format_06d_inj (i j : N) : format_06d i = format_06d j -> i = j.
Proof.
  intros H. rewrite <- (parse_decimal_format_06d i),
                    <- (parse_decimal_format_06d j).
  now rewrite H.
Qed.

Lemma string_length_app (a b : string) :
  String.length (a ++ b) = String.length a + String.length b.
Proof. induction a as [|c a IH]; simpl; [reflexivity|now rewrite IH]. Qed.

Lemma string_length_of_list (l : list ascii) :
  String.length (string_of_list_ascii l) = List.length l.
Proof. induction l as [|c l IH]; simpl; [reflexivity|now rewrite IH]. Qed.

(** Up to 999999 the index takes exactly six characters. *)
Lemma format_06d_length (n : N) :
  (n < 1000000)%N -> String.length (format_06d n) = 6.
Proof.
  intros H. unfold format_06d, zfill.
  rewrite string_length_app, string_length_of_list, repeat_length.
  assert (String.length (decimal n) <= 6); [|lia].
  unfold decimal, digits.
  rewrite string_length_of_list, length_map, length_rev.
  apply digits_lsb_length; [exact H|lia].
Qed.

Lemma string_app_inv_head (a b c : string) :
  (a ++ b = a ++ c -> b = c)%string.
Proof.
  induction a as [|x a IH]; simpl; intros H; [exact H|].
  inversion H. auto.
Qed.

Lemma string_app_inv_tail (a b c : string) :
  (a ++ c = b ++ c -> a = b)%string.
Proof.
  intros H. apply (f_equal list_ascii_of_string) in H.
  rewrite !list_ascii_of_string_app in H. apply app_inv_tail in H.
  rewrite <- (string_of_list_ascii_of_string a),
          <- (string_of_list_ascii_of_string b).
  now rewrite H.
Qed.

End Formatting.

(** ** The session *)

Section SessionProperties.

Context {L : Libs}.

Ltac unfold_m :=
  unfold close, open, read, get_actual_properties, ensure_open, the_cap,
    set_if_given, suppress, cap_release, cap_isOpened, cap_set, cap_get,
    cap_read, VideoCapture_new, set_cap, set_is_open, get_self, lift,
    bind, ret, raise in *.

Lemma close_eq (s : CameraFrameCapture) (w : World) :
  close s w = (Ok tt, closed s, closed_world s w).
Proof.
  unfold closed, closed_world. unfold_m.
  destruct (_cap s) as [cap|]; simpl; [|reflexivity].
  destruct (was_initialized (status (backend w) cap)
            && release_fails (backend w) cap); reflexivity.
Qed.

(** C8. [close()] never raises, whatever the state: it returns normally
    with [isOpen] false and the handle reference cleared; a handle that was
    present has had [release()] called on it, an error of that call being
    suppressed; and a second [close()] changes nothing more, so closing
    twice is closing once. *)
Theorem close_idempotent_never_raises (s : CameraFrameCapture) (w : World) :
  close s w = (Ok tt, closed s, closed_world s w) /\
  _is_open (closed s) = false /\
  _cap (closed s) = None /\
  (forall cap, _cap s = Some cap ->
     released (backend (closed_world s w)) = cap :: released (backend w)) /\
  close (closed s) (closed_world s w) = (Ok tt, closed s, closed_world s w) /\
  bind close (fun _ => close) s w = close s w.
Proof.
  pose proof (close_eq s w) as H1.
  assert (H2 : close (closed s) (closed_world s w)
               = (Ok tt, closed s, closed_world s w)) by reflexivity.
  repeat split; try assumption.
  - intros cap E. unfold closed_world. rewrite E. reflexivity.
  - unfold bind at 1. rewrite H1. exact H2.
Qed.

(** A [release()] that raises does not show: [close()] returns. *)
Lemma close_suppresses_release_error
    (s : CameraFrameCapture) (w : World) (cap : VideoCapture) :
  _cap s = Some cap ->
  result (cap_release cap s w) = Raise CvError ->
  close s w = (Ok tt, closed s, note_release w cap).
Proof.
  intros E _. rewrite close_eq. unfold closed_world. now rewrite E.
Qed.

(** *** The invariant *)

Lemma closed_session_ok (s : CameraFrameCapture) (w : World) :
  _is_open s = false -> _cap s = None -> session_ok s w.
Proof.
  intros H1 H2. split.
  - unfold session_inv. rewrite H1, H2.
    split; [discriminate | intros [c [E _]]; discriminate].
  - intros _. exact H2.
Qed.

(** A freshly constructed object satisfies the invariant. *)
Lemma new_session_inv (cfg : option CameraConfig) (w : World) :
  session_inv (__init__ cfg) w.
Proof.
  unfold session_inv. simpl.
  split; [discriminate | intros [c [E _]]; discriminate].
Qed.

Lemma open_session_ok (s : CameraFrameCapture) (w : World) cap :
  _is_open s = true -> _cap s = Some cap ->
  was_initialized (status (backend w) cap) = true -> session_ok s w.
Proof.
  intros H1 H2 H3. split.
  - unfold session_inv. split; [|intros _; exact H1].
    intros _. exists cap. now split.
  - intros E. congruence.
Qed.

Lemma session_ok_same_status (s : CameraFrameCapture) (w w' : World) :
  status (backend w') = status (backend w) ->
  session_ok s w -> session_ok s w'.
Proof. unfold session_ok, session_inv. intros ->. trivial. Qed.

Lemma keeps_ok_bind {A B} (m : M A) (k : A -> M B) :
  keeps_ok m -> (forall a, keeps_ok (k a)) -> keeps_ok (bind m k).
Proof.
  intros Hm Hk s w H. specialize (Hm s w H). unfold bind.
  destruct (m s w) as [[[a|e] s1] w1]; simpl in *.
  - apply Hk. exact Hm.
  - exact Hm.
Qed.

Lemma keeps_ok_quiet {A} (m : M A) :
  (forall s w, fst (after (m s w)) = s /\
               status (backend (snd (after (m s w)))) = status (backend w)) ->
  keeps_ok m.
Proof.
  intros Hq s w H. destruct (Hq s w) as [E1 E2]. rewrite E1.
  eapply session_ok_same_status; eassumption.
Qed.

Lemma ensure_open_eq (s : CameraFrameCapture) (w : World) :
  ensure_open s w = open s w.
Proof.
  unfold ensure_open, bind, get_self.
  destruct (_is_open s) eqn:E; simpl; [|reflexivity].
  unfold open, bind, get_self. now rewrite E.
Qed.

(** How [open()] ends: nothing to do; or an exception, the object left as
    it was; or success, the new capture stored and flagged open. *)
Lemma open_cases (s : CameraFrameCapture) (w : World) :
  (_is_open s = true /\ open s w = (Ok tt, s, w)) \/
  (_is_open s = false /\
   exists e w', open s w = (Raise e, s, w')) \/
  (_is_open s = false /\
   exists cap w',
     open s w = (Ok tt, {| config := config s; _cap := Some cap;
                           _is_open := true |}, w') /\
     status (backend w') cap = Opened /\
     frames (backend w') = frames (backend w) /\
     cap_props (backend w') = cap_props (backend w)).
Proof.
  unfold_m. destruct (_is_open s) eqn:Eo; [left; now split|right].
  simpl.
  destruct (hd false (connects (backend w))) eqn:Ec; simpl;
    unfold update, note_release;
    do 3 (simpl; rewrite ?Nat.eqb_refl).
  - destruct (width (config s)) as [wd|]; simpl;
      [destruct (float_of_int wd); simpl|];
      try (left; split; [reflexivity|]; do 2 eexists; reflexivity);
      (destruct (height (config s)) as [ht|]; simpl;
       [destruct (float_of_int ht); simpl|];
       try (left; split; [reflexivity|]; do 2 eexists; reflexivity);
       (destruct (fps (config s)) as [f|]; simpl;
        right; (split; [reflexivity|]); do 2 eexists;
        (split; [reflexivity|]); simpl; rewrite Nat.eqb_refl;
        repeat split)).
  - left. split; [reflexivity|]. do 2 eexists. reflexivity.
Qed.

Lemma keeps_ok_open : keeps_ok open.
Proof.
  intros s w H.
  destruct (open_cases s w)
    as [[Eo E]|[[Eo [e [w' E]]]|[Eo [cap [w' [E [St _]]]]]]];
    rewrite E; simpl.
  - exact H.
  - apply closed_session_ok; [exact Eo|]. apply H. exact Eo.
  - eapply open_session_ok; simpl; try reflexivity. now rewrite St.
Qed.

Lemma keeps_ok_close : keeps_ok close.
Proof.
  intros s w _. rewrite close_eq. simpl. now apply closed_session_ok.
Qed.

Lemma keeps_ok_ensure_open : keeps_ok ensure_open.
Proof. intros s w H. rewrite ensure_open_eq. now apply keeps_ok_open. Qed.

Lemma keeps_ok_the_cap : keeps_ok the_cap.
Proof.
  apply keeps_ok_quiet. intros s w. unfold_m.
  destruct (_cap s); simpl; now split.
Qed.

Lemma keeps_ok_read : keeps_ok read.
Proof.
  unfold read. apply keeps_ok_bind; [apply keeps_ok_ensure_open|intros _].
  apply keeps_ok_bind; [apply keeps_ok_the_cap|intros cap].
  apply keeps_ok_bind.
  - apply keeps_ok_quiet. intros s w. now split.
  - intros [frame|]; apply keeps_ok_quiet; intros s w; unfold_m;
      [destruct (convert_to_rgb (config s))|]; now split.
Qed.

Lemma keeps_ok_get_actual_properties : keeps_ok get_actual_properties.
Proof.
  unfold get_actual_properties.
  apply keeps_ok_bind; [apply keeps_ok_ensure_open|intros _].
  repeat (first
    [ apply keeps_ok_bind; [apply keeps_ok_the_cap|intros ?]
    | apply keeps_ok_bind;
        [apply keeps_ok_quiet; intros s w; unfold lift; now split|intros ?]
    | apply keeps_ok_quiet; intros s w; now split ]).
Qed.

Lemma keeps_ok_save_frame frame file_path :
  keeps_ok (save_frame frame file_path).
Proof.
  apply keeps_ok_quiet. intros s w.
  unfold save_frame, attr_parent, mkdir, imwrite. unfold_m.
  destruct file_path as [str|p]; simpl; [now split|].
  destruct (mkdir_fails (disk w) (parent p)); simpl; [now split|].
  destruct (hd true (imwrite_results (disk w))); simpl; now split.
Qed.

Lemma keeps_ok_next g : keeps_ok (__next__ g).
Proof.
  destruct g; simpl.
  - apply keeps_ok_bind; [apply keeps_ok_ensure_open|intros _].
    apply keeps_ok_read.
  - apply keeps_ok_read.
  - apply keeps_ok_quiet. intros s w. now split.
Qed.

Lemma run_op_ok (o : Op) (s : CameraFrameCapture) (w : World) :
  session_ok s w ->
  session_ok (fst (run_op o s w)) (snd (run_op o s w)).
Proof.
  intros H. destruct o; simpl.
  - now apply closed_session_ok.
  - now apply keeps_ok_open.
  - now apply keeps_ok_close.
  - now apply keeps_ok_read.
  - now apply keeps_ok_get_actual_properties.
  - now apply keeps_ok_next.
  - now apply keeps_ok_open.
  - now apply keeps_ok_close.
  - now apply keeps_ok_save_frame.
Qed.

Lemma run_ops_ok (ops : list Op) (s : CameraFrameCapture) (w : World) :
  session_ok s w ->
  session_ok (fst (run_ops ops s w)) (snd (run_ops ops s w)).
Proof.
  revert s w. induction ops as [|o ops IH]; intros s w H; simpl.
  - exact H.
  - pose proof (run_op_ok o H) as H1.
    destruct (run_op o s w) as [s1 w1]. now apply IH.
Qed.

(** Whatever is done to an object from its construction on, [isOpen]
    holds exactly when the handle is there and was initialized. *)
Lemma reachable_session_inv
    (cfg : option CameraConfig) (ops : list Op) (w : World) :
  session_inv (fst (run_ops ops (__init__ cfg) w))
              (snd (run_ops ops (__init__ cfg) w)).
Proof.
  apply run_ops_ok. now apply closed_session_ok.
Qed.

(** C7. Every public operation of the session keeps the invariant: from a
    state where [isOpen] holds exactly when the handle is there and was
    successfully initialized (and the handle reference is cleared while the
    session is closed, as it is after construction), any sequence of
    constructions, [open], [close], [read], property queries, iteration
    steps, context-manager entries and exits and [save_frame] calls,
    whether they return or raise, ends in such a state again. *)
Theorem session_invariant_preserved
    (ops : list Op) (s : CameraFrameCapture) (w : World) :
  session_inv s w -> handle_cleared s ->
  session_inv (fst (run_ops ops s w)) (snd (run_ops ops s w)) /\
  handle_cleared (fst (run_ops ops s w)).
Proof.
  intros H1 H2. apply run_ops_ok. now split.
Qed.

(** *** Reading *)

(** What [read()] comes to once [open()] has succeeded. *)
Lemma read_after_open (s s1 : CameraFrameCapture) (w w1 : World) cap :
  open s w = (Ok tt, s1, w1) -> _cap s1 = Some cap ->
  read s w =
    match hd None (frames (backend w1)) with
    | None => raise CameraReadError s1 (snd (after (cap_read cap s1 w1)))
    | Some frame =>
        (Ok (if convert_to_rgb (config s1)
             then cvtColor frame COLOR_BGR2RGB else frame),
         s1, snd (after (cap_read cap s1 w1)))
    end.
Proof.
  intros E Ec. unfold read. unfold bind at 1. rewrite ensure_open_eq, E.
  unfold the_cap, bind, get_self. rewrite Ec. simpl.
  destruct (hd None (frames (backend w1))) as [frame|]; simpl; [|reflexivity].
  unfold ret. destruct (convert_to_rgb (config s1)); reflexivity.
Qed.

(** A successful [open()] leaves the session open with a handle, and does
    not touch the frames or the properties the backend will report. *)
Lemma open_ok_state (s : CameraFrameCapture) (w : World) :
  session_inv s w -> result (open s w) = Ok tt ->
  exists cap s1 w1,
    open s w = (Ok tt, s1, w1) /\ _cap s1 = Some cap /\
    _is_open s1 = true /\
    frames (backend w1) = frames (backend w) /\
    cap_props (backend w1) = cap_props (backend w).
Proof.
  intros Hinv Hok.
  destruct (open_cases s w)
    as [[Eo E]|[[Eo [e [w' E]]]|[Eo [cap [w' [E [St [Ef Ep]]]]]]]].
  - destruct (proj1 Hinv Eo) as [cap [Ec _]].
    exists cap, s, w. repeat split; assumption.
  - rewrite E in Hok. discriminate.
  - exists cap. do 2 eexists. split; [exact E|]. simpl.
    repeat split; assumption.
Qed.

(** An exception of [open()] is the outcome of [read()]. *)
Lemma read_open_raises (s s1 : CameraFrameCapture) (w w1 : World) e :
  open s w = (Raise e, s1, w1) -> read s w = (Raise e, s1, w1).
Proof.
  intros E. unfold read. unfold bind at 1. now rewrite ensure_open_eq, E.
Qed.



(** *** Querying the properties *)

(** The magnitude is the floor of [m * 2^e]. *)
Lemma trunc_mag_spec (m : positive) (e : Z) :
  trunc_mag m e =
    if (0 <=? e)%Z then (Zpos m * 2 ^ e)%Z else (Zpos m / 2 ^ (- e))%Z.
Proof.
  destruct e as [|p|p]; unfold trunc_mag.
  - change (0 <=? 0)%Z with true. cbv iota. rewrite Z.pow_0_r. lia.
  - rewrite Z.shiftl_mul_pow2 by lia. reflexivity.
  - rewrite Z.shiftr_div_pow2 by lia. reflexivity.
Qed.

Lemma int_or_0_finite (x : float) :
  is_finite x = true -> int_or_0 x = Ok (int_part x).
Proof. destruct x; simpl; intros H; try discriminate; reflexivity. Qed.

(** A negative report is never turned into 0 by the [or]: the integer part
    keeps its sign. *)
Lemma int_part_negative (m : positive) (e : Z) :
  int_part (S754_finite true m e) = (- trunc_mag m e)%Z.
Proof. reflexivity. Qed.

(** C1, as amended.  [get_actual_properties()] opens the session if it is
    not open and returns what the backend reports for width, height and
    frame rate as (int, int, float).  A report of zero, which is how the
    backend says "unavailable", comes back as 0 or 0.0.  Any other finite
    report, a negative one included, is not replaced: width and height are
    truncated toward zero with their sign, the frame rate is returned as it
    is. *)
Theorem get_actual_properties_reports (s : CameraFrameCapture) (w : World) :
  session_inv s w -> result (open s w) = Ok tt ->
  is_finite (cap_props (backend w) CAP_PROP_FRAME_WIDTH) = true ->
  is_finite (cap_props (backend w) CAP_PROP_FRAME_HEIGHT) = true ->
  result (get_actual_properties s w) =
    Ok (int_part (cap_props (backend w) CAP_PROP_FRAME_WIDTH),
        int_part (cap_props (backend w) CAP_PROP_FRAME_HEIGHT),
        if truthy (cap_props (backend w) CAP_PROP_FPS)
        then cap_props (backend w) CAP_PROP_FPS else pos_zero) /\
  _is_open (fst (after (get_actual_properties s w))) = true.
Proof.
  intros Hinv Hok Hw Hh.
  destruct (open_ok_state Hinv Hok) as [cap [s1 [w1 [E [Ec [Eo [_ Ep]]]]]]].
  assert (Heq : get_actual_properties s w =
    (Ok (int_part (cap_props (backend w) CAP_PROP_FRAME_WIDTH),
         int_part (cap_props (backend w) CAP_PROP_FRAME_HEIGHT),
         float_or_0 (cap_props (backend w) CAP_PROP_FPS)), s1, w1)).
  { unfold get_actual_properties. unfold bind at 1.
    rewrite ensure_open_eq, E.
    unfold the_cap, cap_get, lift, bind, get_self, ret.
    do 3 (rewrite ?Ec, ?Ep; simpl;
          rewrite ?(int_or_0_finite _ Hw), ?(int_or_0_finite _ Hh); simpl).
    reflexivity. }
  rewrite Heq. simpl. now split.
Qed.

End SessionProperties.

(** *** On explicit inputs *)

Lemma session_invariant_preserved_witness :
  session_inv
    (fst (run_ops [Call_open; Call_read; Call_close] Demo.session
            (Demo.world [true] [Some 7] Demo.props_640_480
               Demo.frozen_clock [] None)))
    (snd (run_ops [Call_open; Call_read; Call_close] Demo.session
            (Demo.world [true] [Some 7] Demo.props_640_480
               Demo.frozen_clock [] None))) /\
  handle_cleared
    (fst (run_ops [Call_open; Call_read; Call_close] Demo.session
            (Demo.world [true] [Some 7] Demo.props_640_480
               Demo.frozen_clock [] None))).
Proof.
  apply (@session_invariant_preserved Demo.libs).
  - apply new_session_inv.
  - intros _. reflexivity.
Defined.


(** The end-to-end scenario of the design document: a backend reporting
    640, 480 and no frame rate. *)
Lemma get_actual_properties_reports_witness :
  result (get_actual_properties Demo.session
            (Demo.world [true] [] Demo.props_640_480 Demo.frozen_clock []
               None))
    = Ok (640%Z, 480%Z, pos_zero) /\
  _is_open (fst (after (get_actual_properties Demo.session
            (Demo.world [true] [] Demo.props_640_480 Demo.frozen_clock []
               None)))) = true.
Proof.
  apply (@get_actual_properties_reports Demo.libs Demo.session
           (Demo.world [true] [] Demo.props_640_480 Demo.frozen_clock []
              None)).
  - apply (@new_session_inv Demo.libs).
  - reflexivity.
  - reflexivity.
  - reflexivity.
Defined.

(** C1 as stated fails: a backend that reports the width -1 gets -1 back,
    not 0. *)
Lemma negative_width_not_replaced :
  is_negative (Demo.props_negative_width CAP_PROP_FRAME_WIDTH) = true /\
  result (get_actual_properties Demo.session
            (Demo.world [true] [] Demo.props_negative_width
               Demo.frozen_clock [] None))
    = Ok ((-1)%Z, 480%Z, of_Z 30) /\
  ~ (exists ht f,
       result (get_actual_properties Demo.session
                 (Demo.world [true] [] Demo.props_negative_width
                    Demo.frozen_clock [] None))
         = Ok (0%Z, ht, f)).
Proof.
  split; [reflexivity|]. split; [reflexivity|].
  intros [ht [f H]]. vm_compute in H. discriminate.
Qed.

(** ** The recording loop *)

Section RecorderProperties.

Context {L : Libs}.

(** *** What each call leaves untouched *)

Lemma leaves_bind {A B X} (proj : World -> X) (m : M A) (k : A -> M B) :
  leaves proj m -> (forall a, leaves proj (k a)) -> leaves proj (bind m k).
Proof.
  intros Hm Hk s w. unfold bind. specialize (Hm s w).
  destruct (m s w) as [[[a|e] s1] w1]; simpl in *.
  - now rewrite Hk.
  - exact Hm.
Qed.

Lemma leaves_pure {A X} (proj : World -> X) (m : M A) :
  (forall s w, snd (m s w) = w) -> leaves proj m.
Proof. intros H s w. now rewrite H. Qed.

Lemma leaves_the_cap {X} (proj : World -> X) : leaves proj the_cap.
Proof.
  apply leaves_pure. intros s w. unfold the_cap, bind, get_self.
  now destruct (_cap s).
Qed.

Lemma leaves_set_if_given {X} (proj : World -> X) cap p v :
  off_backend proj -> leaves proj (set_if_given cap p v).
Proof.
  intros Hp s w. unfold set_if_given, lift, cap_set, bind, ret.
  destruct v as [[x|e]|]; simpl; auto.
Qed.

Lemma leaves_open {X} (proj : World -> X) :
  off_backend proj -> leaves proj open.
Proof.
  intros Hp. unfold open.
  apply leaves_bind; [now apply leaves_pure|intros s0].
  destruct (_is_open s0); [now apply leaves_pure|].
  apply leaves_bind; [intros s w; apply Hp|intros cap].
  apply leaves_bind; [now apply leaves_pure|intros opened].
  destruct opened; simpl.
  - repeat (apply leaves_bind;
            [now apply leaves_set_if_given|intros _]).
    apply leaves_bind; [|intros _]; now apply leaves_pure.
  - apply leaves_bind; [|intros _; now apply leaves_pure].
    intros s w. unfold cap_release, note_release.
    destruct (_ && _); apply Hp.
Qed.

Lemma leaves_read {X} (proj : World -> X) :
  off_backend proj -> leaves proj read.
Proof.
  intros Hp. unfold read.
  apply leaves_bind.
  { intros s w. rewrite ensure_open_eq. now apply leaves_open. }
  intros _. apply leaves_bind; [apply leaves_the_cap|intros cap].
  apply leaves_bind; [intros s w; apply Hp|intros [frame|]].
  - apply leaves_pure. intros s w. unfold bind, get_self, ret.
    now destruct (convert_to_rgb (config s)).
  - now apply leaves_pure.
Qed.

Lemma leaves_save_frame {X} (proj : World -> X) frame file_path :
  off_disk proj -> leaves proj (save_frame frame file_path).
Proof.
  intros Hp s w. unfold save_frame, attr_parent, mkdir, imwrite.
  unfold bind, get_self, ret, raise.
  destruct file_path as [str|p]; simpl; [reflexivity|].
  destruct (mkdir_fails (disk w) (parent p)); simpl; [reflexivity|].
  destruct (hd true (imwrite_results (disk w))); simpl;
    now rewrite !Hp.
Qed.

(** *** One pass through the [try] block *)

(** A checkpoint passes the outcome of the call on, or replaces it by
    [KeyboardInterrupt] when the cancellation is due; the effects of the
    call are kept either way. *)
Lemma checkpoint_inv {A} (m : M A) s w (r : Res A) s' w' :
  checkpoint m s w = (r, s', w') ->
  exists r0 w0,
    m s w = (r0, s', w0) /\ disk w' = disk w0 /\ backend w' = backend w0 /\
    match sigint w0 with
    | None => r = r0 /\ sigint w' = None
    | Some O => r = Raise KeyboardInterrupt /\ sigint w' = None
    | Some (S k) => r = r0 /\ sigint w' = Some k
    end.
Proof.
  unfold checkpoint. destruct (m s w) as [[r0 s0] w0].
  intros H. exists r0, w0.
  destruct (sigint w0) as [[|k]|] eqn:E; inversion H; subst; simpl; auto.
Qed.

(** [save_frame] on a [Path]: the file is written and the path returned,
    or [OSError] or [FrameSaveError] is raised and no file is written. *)
Lemma save_frame_path frame (p : Path) s w :
  exists r w',
    save_frame frame (PPath p) s w = (r, s, w') /\
    ((r = Ok (PPath p) /\ written w' = str_of_Path p :: written w) \/
     ((r = Raise OSError \/ r = Raise FrameSaveError) /\
      written w' = written w)).
Proof.
  unfold save_frame, attr_parent, mkdir, imwrite, written.
  unfold bind, get_self, ret, raise. simpl.
  destruct (mkdir_fails (disk w) (parent p)); simpl.
  - do 2 eexists. split; [reflexivity|]. right. auto.
  - destruct (hd true (imwrite_results (disk w))); simpl;
      do 2 eexists; (split; [reflexivity|]); simpl; auto.
Qed.

(** What one pass does to the files and to the pending cancellation.  A
    pass that completes either saved nothing and changed no variable, or
    saved exactly the file numbered [frame_count] and incremented the
    counter.  A pass that raises saved nothing, unless it raises
    [KeyboardInterrupt], in which case the file numbered [frame_count] may
    have been written already.  A pass that completes uses up at least one
    of the calls a scheduled cancellation is waiting for. *)
Lemma loop_try_inv save_path interval filename_prefix v s w r s' w' :
  loop_try save_path interval filename_prefix v s w = (r, s', w') ->
  match r with
  | Ok v' =>
      ((v' = v /\ written w' = written w) \/
       (frame_count v' = N.succ (frame_count v) /\
        written w' =
          frame_path save_path filename_prefix (frame_count v) :: written w))
      /\
      match sigint w with
      | Some k => exists k', sigint w' = Some k' /\ k' < k
      | None => sigint w' = None
      end
  | Raise e =>
      written w' = written w \/
      (e = KeyboardInterrupt /\ sigint w <> None /\
       written w' =
         frame_path save_path filename_prefix (frame_count v) :: written w)
  end.
Proof.
  unfold loop_try. unfold bind at 1.
  destruct (checkpoint time_time s w) as [[r0 s0] w0] eqn:E0.
  apply checkpoint_inv in E0. destruct E0 as (r00 & w00 & Et & Hd0 & _ & Hs0).
  unfold time_time in Et. inversion Et; subst r00 s0 w00; clear Et.
  simpl in Hs0.
  assert (W0 : written w0 = written w) by (unfold written; now rewrite Hd0).
  destruct r0 as [t|e0]; [|intros H; inversion H; subst; now left].
  assert (S0 : match sigint w with
               | Some k => exists k', sigint w0 = Some k' /\ k' < S k'
                                      /\ k = S k'
               | None => sigint w0 = None
               end).
  { destruct (sigint w) as [[|k]|]; destruct Hs0 as [Hr Hs];
      try discriminate; eauto. }
  clear Hs0.
  destruct (geb (sub t (last_save_time v)) interval).
  2:{ intros H. inversion H; subst. split; [now left|].
      destruct (sigint w) as [k|]; [|exact S0].
      destruct S0 as (k' & E & _ & ->). eauto. }
  unfold bind at 1.
  destruct (checkpoint read s w0) as [[r1 s1] w1] eqn:E1.
  apply checkpoint_inv in E1. destruct E1 as (r10 & w10 & Er & Hd1 & _ & Hs1).
  assert (D1 : disk w10 = disk w0).
  { change w10 with (snd (r10, s1, w10)). rewrite <- Er.
    apply (leaves_read (proj:=disk)). now intros ? ?. }
  assert (G1 : sigint w10 = sigint w0).
  { change w10 with (snd (r10, s1, w10)). rewrite <- Er.
    apply (leaves_read (proj:=sigint)). now intros ? ?. }
  assert (W1 : written w1 = written w)
    by (unfold written in *; now rewrite Hd1, D1).
  destruct r1 as [frame|e1]; [|intros H; inversion H; subst; now left].
  rewrite G1 in Hs1.
  assert (S1 : match sigint w with
               | Some k => exists k', sigint w1 = Some k' /\ S k' < k
               | None => sigint w1 = None
               end).
  { destruct (sigint w) as [k|].
    - destruct S0 as (k0 & E & _ & ->). rewrite E in Hs1.
      destruct k0 as [|k0]; destruct Hs1 as [Hr Hs]; try discriminate.
      exists k0. split; [assumption|lia].
    - rewrite S0 in Hs1. apply Hs1. }
  clear S0 Hs1.
  unfold bind at 1.
  match goal with
  | |- context [checkpoint ?m s1 w1] =>
      destruct (checkpoint m s1 w1) as [[r2 s2] w2] eqn:E2
  end.
  apply checkpoint_inv in E2. destruct E2 as (r20 & w20 & Es & Hd2 & _ & Hs2).
  assert (G2 : sigint w20 = sigint w1).
  { change w20 with (snd (r20, s2, w20)). rewrite <- Es.
    apply (leaves_save_frame (proj:=sigint)). now intros ? ?. }
  rewrite G2 in Hs2.
  match type of Es with
  | save_frame ?f (PPath ?p) _ _ = _ =>
      destruct (save_frame_path f p s1 w1) as (r' & w'' & Es' & Hcase)
  end.
  rewrite Es' in Es. inversion Es; subst r' s2 w''; clear Es Es'.
  assert (W2 : written w2 = written w20)
    by (unfold written; now rewrite Hd2).
  rewrite W1 in Hcase. rewrite <- W2 in Hcase.
  destruct r2 as [saved|e2]; intros H; inversion H; subst; clear H.
  - split.
    + right. simpl. split; [reflexivity|].
      destruct Hcase as [[_ Hw]|[[Hr|Hr] _]]; [exact Hw| |];
        subst r20; exfalso;
        destruct (sigint w1) as [[|k1]|]; destruct Hs2; discriminate.
    + destruct (sigint w) as [k|].
      * destruct S1 as (k1 & E & Hlt). rewrite E in Hs2.
        destruct k1 as [|k1]; destruct Hs2 as [Hr Hs]; try discriminate.
        exists k1. split; [assumption|lia].
      * rewrite S1 in Hs2. apply Hs2.
  - destruct Hcase as [[Hr Hw]|[_ Hw]]; [|now left].
    subst r20.
    destruct (sigint w1) as [[|k1]|]; destruct Hs2 as [Hr _];
      try discriminate.
    inversion Hr; subst. right. repeat split; [|assumption].
    intros E. rewrite E in S1. congruence.
Qed.

(** *** The jump back *)

(** The jump passes, using up one of the points a scheduled cancellation
    is waiting for, or raises [KeyboardInterrupt] when the cancellation is
    due; it touches nothing else. *)
Lemma back_edge_inv s w r s' w' :
  back_edge s w = (r, s', w') ->
  s' = s /\ disk w' = disk w /\ backend w' = backend w /\
  match r with
  | Ok _ =>
      match sigint w with
      | Some k => exists k', sigint w' = Some k' /\ k = S k'
      | None => sigint w' = None
      end
  | Raise e =>
      e = KeyboardInterrupt /\ sigint w = Some 0 /\ w' = set_sigint w None
  end.
Proof.
  unfold back_edge, checkpoint, ret. simpl.
  destruct (sigint w) as [[|k]|] eqn:E; intros H; inversion H; subst;
    simpl; repeat split; eauto.
Qed.


(** *** The loop *)

Section Run.

Variable save_path : Path.
Variable interval : float.
Variable filename_prefix : string.

#[local] Abbreviation loop fuel :=
  (save_stream_loop fuel save_path interval filename_prefix).
#[local] Abbreviation pass :=
  (loop_try save_path interval filename_prefix).
#[local] Abbreviation passes n :=
  (loop_iter n save_path interval filename_prefix).

Lemma loop_unroll n fuel v s w v1 s1 w1 :
  passes n v s w = Some (v1, s1, w1) ->
  loop (n + fuel) v s w = loop fuel v1 s1 w1.
Proof.
  revert v s w. induction n as [|n IH]; intros v s w H; simpl in *.
  - now inversion H.
  - destruct (pass v s w) as [[[v'|e] s'] w']; [|discriminate].
    destruct (back_edge s' w') as [[[[]|e] s''] w''];
      [now apply IH|discriminate].
Qed.

Lemma loop_break fuel v s w e s' w' :
  pass v s w = (Raise e, s', w') ->
  loop (S fuel) v s w =
    Some (if handled e then Ok (save_path, frame_count v) else Raise e,
          s', w').
Proof. intros H. simpl. rewrite H. now destruct e. Qed.

(** The loop ends at the first pass that raises: with the result when the
    exception has a handler, with the exception otherwise. *)
Lemma loop_outcome n fuel v s w v1 s1 w1 e s2 w2 :
  passes n v s w = Some (v1, s1, w1) ->
  pass v1 s1 w1 = (Raise e, s2, w2) ->
  loop (n + S fuel) v s w =
    Some (if handled e then Ok (save_path, frame_count v1) else Raise e,
          s2, w2).
Proof.
  intros Hn He. rewrite (@loop_unroll n (S fuel) v s w v1 s1 w1 Hn).
  now apply loop_break.
Qed.




(** C3. A [FrameSaveError] raised in the write step is not caught by the
    loop: whatever number of passes completed before, the pass that raises
    it ends [save_stream] with that exception and no result.  The loop
    returns a result from a pass that raises exactly when the exception is
    [KeyboardInterrupt] or [CameraReadError]. *)
Theorem save_error_propagates
    (n fuel : nat) (v : LoopVars) (s : CameraFrameCapture) (w : World)
    (v1 : LoopVars) (s1 : CameraFrameCapture) (w1 : World)
    (e : exn) (s2 : CameraFrameCapture) (w2 : World) :
  loop_iter n save_path interval filename_prefix v s w
    = Some (v1, s1, w1) ->
  loop_try save_path interval filename_prefix v1 s1 w1
    = (Raise e, s2, w2) ->
  (e = FrameSaveError ->
   save_stream_loop (n + S fuel) save_path interval filename_prefix v s w
     = Some (Raise FrameSaveError, s2, w2)) /\
  ((exists res,
      save_stream_loop (n + S fuel) save_path interval filename_prefix v s w
        = Some (Ok res, s2, w2)) <->
   e = KeyboardInterrupt \/ e = CameraReadError).
Proof.
  intros Hn He.
  pose proof (@loop_outcome n fuel v s w v1 s1 w1 e s2 w2 Hn He) as H.
  split.
  - intros ->. exact H.
  - rewrite H. split.
    + intros [res Hres]. destruct e; simpl in Hres; try discriminate; auto.
    + intros [->| ->]; eexists; reflexivity.
Qed.


(** *** The files of one run *)

(** From any state of the loop: when [save_stream] returns, the files
    written since are the ones numbered from the counter at the start on,
    consecutively, each once and in this order; the returned counter is
    their number, except that it misses the last file when a cancellation
    was raised between the writing of that file and the increment. *)
Lemma recorded_files_sequential fuel v s w p n s' w' :
  loop fuel v s w = Some (Ok (p, n), s', w') ->
  p = save_path /\
  exists m,
    written w' =
      rev (frame_paths save_path filename_prefix (frame_count v) m)
        ++ written w /\
    (n = (frame_count v + N.of_nat m)%N \/
     (sigint w <> None /\ (n + 1 = frame_count v + N.of_nat m)%N)).
Proof.
  revert v s w. induction fuel as [|fuel IH]; intros v s w H;
    [discriminate|].
  simpl in H. destruct (pass v s w) as [[[v'|e] s1] w0] eqn:E.
  - destruct (loop_try_inv _ _ _ _ _ _ E) as [Hfiles Hsig0].
    destruct (back_edge s1 w0) as [[[[]|e] s1'] w1] eqn:B; [|discriminate].
    apply back_edge_inv in B. destruct B as (_ & Hd & _ & Hb).
    assert (Hw0 : written w1 = written w0)
      by (unfold written; now rewrite Hd).
    rewrite <- Hw0 in Hfiles.
    assert (Hsig : sigint w = None -> sigint w1 = None).
    { intros H2. rewrite H2 in Hsig0. rewrite Hsig0 in Hb. exact Hb. }
    destruct (IH _ _ _ H) as (Hp & m & Hw & Hn). split; [exact Hp|].
    assert (Hs : sigint w1 <> None -> sigint w <> None).
    { intros H1 H2. apply H1. now apply Hsig. }
    destruct Hfiles as [[-> Hw1]|[Hc Hw1]].
    + exists m. rewrite Hw, Hw1. split; [reflexivity|].
      destruct Hn as [Hn|[Hs1 Hn]]; [now left|right; auto].
    + exists (S m). rewrite Hw, Hw1, Hc. split.
      * unfold frame_paths. simpl. rewrite <- app_assoc. reflexivity.
      * rewrite Hc in Hn.
        destruct Hn as [Hn|[Hs1 Hn]]; [left|right; split; auto]; lia.
  - pose proof (loop_try_inv _ _ _ _ _ _ E) as Hfiles. simpl in Hfiles.
    assert (Hres : handled e = true /\ p = save_path /\ n = frame_count v
                   /\ w' = w0).
    { destruct e; simpl in H; inversion H; auto. }
    destruct Hres as (_ & -> & -> & ->). split; [reflexivity|].
    destruct Hfiles as [Hw|(_ & Hs & Hw)].
    + exists 0. split; [exact Hw|]. left. simpl. lia.
    + exists 1. split; [exact Hw|]. right. split; [exact Hs|]. simpl. lia.
Qed.

(** *** The time gate of the first pass *)

Lemma checkpoint_quiet {A} (m : M A) s w :
  sigint (snd (m s w)) = None -> checkpoint m s w = m s w.
Proof.
  unfold checkpoint. destruct (m s w) as [[r s1] w1]. simpl.
  now intros ->.
Qed.

(** C2, as amended.  [last_save_time] starts at 0.0, so in the first pass
    the gate compares the clock itself with the interval: [now - 0.0] is
    [now].  With no cancellation pending, the first pass reads and saves
    the first frame, as number 0, exactly when [now >= interval]; when the
    interval exceeds the clock reading the pass does nothing but read the
    clock, and the loop goes on polling. *)
Theorem first_frame_gate (s : CameraFrameCapture) (w : World) :
  sigint w = None ->
  (geb (clock w (clock_reads w)) interval = true ->
   loop_try save_path interval filename_prefix loop_start s w =
     bind read (fun frame =>
       bind (save_frame frame
               (PPath (truediv save_path
                         (frame_filename filename_prefix 0))))
            (fun _ => ret {| last_save_time := clock w (clock_reads w);
                             frame_count := 1 |}))
       s (set_clock_reads w (S (clock_reads w)))) /\
  (geb (clock w (clock_reads w)) interval = false ->
   loop_try save_path interval filename_prefix loop_start s w =
     (Ok loop_start, s, set_clock_reads w (S (clock_reads w)))).
Proof.
  intros Hs.
  split; intros Hg; unfold loop_try; unfold bind at 1;
    rewrite checkpoint_quiet by exact Hs;
    unfold time_time; cbn [last_save_time loop_start];
    rewrite sub_pos_zero, Hg; [|reflexivity].
  set (w1 := set_clock_reads w (S (clock_reads w))).
  assert (Hs1 : sigint w1 = None) by exact Hs.
  assert (Hr : sigint (snd (read s w1)) = None).
  { rewrite (leaves_read (proj:=sigint)); [exact Hs1|now intros ? ?]. }
  unfold bind at 1 3. rewrite checkpoint_quiet by exact Hr.
  destruct (read s w1) as [[[frame|e] s2] w2]; [|reflexivity].
  simpl in Hr. unfold bind at 1 2. rewrite checkpoint_quiet; [reflexivity|].
  rewrite (leaves_save_frame (proj:=sigint)); [exact Hr|now intros ? ?].
Qed.

End Run.

(** *** File names *)

Lemma frame_filename_inj (filename_prefix : string) (i j : N) :
  frame_filename filename_prefix i = frame_filename filename_prefix j ->
  i = j.
Proof.
  unfold frame_filename. intros H.
  apply string_app_inv_head in H. inversion H as [H1].
  apply string_app_inv_tail in H1. now apply format_06d_inj.
Qed.

Lemma in_frame_filenames (filename_prefix : string) (count : nat) :
  forall from x,
    In x (frame_filenames filename_prefix from count) ->
    exists j, (from <= j)%N /\ x = frame_filename filename_prefix j.
Proof.
  induction count as [|count IH]; intros from x H; simpl in H.
  - contradiction.
  - destruct H as [<-|H].
    + exists from. split; [lia|reflexivity].
    + destruct (IH _ _ H) as (j & Hj & ->). exists j. split; [lia|reflexivity].
Qed.

(** No name is used twice. *)
Lemma frame_filenames_NoDup (filename_prefix : string) (count : nat) :
  forall from, NoDup (frame_filenames filename_prefix from count).
Proof.
  induction count as [|count IH]; intros from; simpl; constructor.
  - intros H. apply in_frame_filenames in H. destruct H as (j & Hj & E).
    apply frame_filename_inj in E. lia.
  - apply IH.
Qed.

(** *** A whole run *)

(** What [save_stream] does before the loop touches no file and no
    pending cancellation. *)
Lemma save_stream_setup_inv (save_path : PathLike) s w p s1 w1 :
  save_stream_setup save_path s w = (Ok p, s1, w1) ->
  p = to_Path save_path /\ written w1 = written w /\ sigint w1 = sigint w.
Proof.
  unfold save_stream_setup. unfold bind at 1.
  pose proof (leaves_open (proj:=disk) (fun _ _ => eq_refl) s w) as Hd.
  pose proof (leaves_open (proj:=sigint) (fun _ _ => eq_refl) s w) as Hs.
  rewrite ensure_open_eq.
  destruct (open s w) as [[[u|e] s0] w0]; simpl in Hd, Hs; [|discriminate].
  unfold mkdir, bind, ret.
  destruct (mkdir_fails (disk w0) (to_Path save_path)); [discriminate|].
  intros H. inversion H; subst. unfold written. simpl.
  rewrite Hd, Hs. auto.
Qed.

(** The files of a recording run.  When [save_stream] returns, it returns
    the target directory, and the files written during the run are the
    ones numbered 0, 1, ..., in this order, without gap or repetition.  The
    returned count is their number, unless the run was cancelled between
    the writing of the last file and the increment of the counter: then it
    is one less.  A run with no cancellation pending returns the exact
    count. *)
Lemma recording_run_files fuel (save_path : PathLike) interval
    filename_prefix s w p n s' w' :
  save_stream fuel save_path interval filename_prefix s w
    = Some (Ok (p, n), s', w') ->
  p = to_Path save_path /\
  exists m,
    written w' = rev (frame_paths p filename_prefix 0 m) ++ written w /\
    NoDup (frame_filenames filename_prefix 0 m) /\
    (n = N.of_nat m \/ (sigint w <> None /\ (n + 1)%N = N.of_nat m)).
Proof.
  unfold save_stream.
  destruct (save_stream_setup save_path s w) as [[[p0|e] s1] w1] eqn:E;
    [|discriminate].
  destruct (save_stream_setup_inv _ _ _ E) as (-> & Hw & Hs).
  intros H. apply recorded_files_sequential in H.
  destruct H as (-> & m & Hf & Hn). split; [reflexivity|].
  exists m. rewrite Hf, Hw, <- Hs. simpl in *.
  split; [reflexivity|]. split; [apply frame_filenames_NoDup|exact Hn].
Qed.

(** *** Saving one frame *)

(** C10. [save_frame] with the path given as a [str] raises
    [AttributeError], not [FrameSaveError], and does so before anything
    else: no directory is made, no file is written, the world is as it
    was.  A call that returns, raises [FrameSaveError] or changes anything
    on disk was given a [Path]. *)
Theorem save_frame_str_raises_AttributeError
    (frame : ndarray) (s : CameraFrameCapture) (w : World) :
  (forall str,
     save_frame frame (PStr str) s w = (Raise AttributeError, s, w)) /\
  (forall file_path,
     (exists x, result (save_frame frame file_path s w) = Ok x) \/
     result (save_frame frame file_path s w) = Raise FrameSaveError \/
     disk (snd (save_frame frame file_path s w)) <> disk w ->
     exists p, file_path = PPath p).
Proof.
  split; [reflexivity|].
  intros [str|p] H; [|now exists p].
  change (save_frame frame (PStr str) s w)
    with (@Raise PathLike AttributeError, s, w) in H.
  simpl in H. destruct H as [[x H]|[H|H]]; try discriminate.
  now elim H.
Qed.

End RecorderProperties.

(** *** On explicit inputs *)

(** C2 as stated fails: with an interval of 10^10 seconds and the clock at
    1.7 * 10^9 seconds after the epoch the gate of the first pass is
    closed; after 25 passes the frame is still unread and nothing is
    saved, and [save_stream] is still polling. *)
Lemma first_frame_waits_under_large_interval :
  geb (sub (Demo.frozen_clock 0) (last_save_time loop_start))
      (of_Z 10000000000) = false /\
  match loop_iter 25 (["out"%string] : @Path Demo.libs) (of_Z 10000000000)
          "frame" loop_start Demo.session
          (Demo.world [true] [Some 7] Demo.props_640_480 Demo.frozen_clock
             [] None) with
  | Some (v, _, w') =>
      v = loop_start /\ frames (backend w') = [Some 7] /\ written w' = []
  | None => False
  end /\
  save_stream 25 (@PStr Demo.libs "out") (of_Z 10000000000) "frame"
    Demo.session
    (Demo.world [true] [Some 7] Demo.props_640_480 Demo.frozen_clock [] None)
  = None.
Proof. vm_compute. repeat split. Qed.

Lemma first_frame_gate_witness :
  result (loop_try (["out"%string] : @Path Demo.libs) pos_zero "frame"
            loop_start Demo.session
            (Demo.world [true] [Some 7] Demo.props_640_480
               Demo.frozen_clock [] None))
    = Ok {| last_save_time := Demo.frozen_clock 0; frame_count := 1 |} /\
  written (snd (loop_try (["out"%string] : @Path Demo.libs) pos_zero "frame"
                  loop_start Demo.session
                  (Demo.world [true] [Some 7] Demo.props_640_480
                     Demo.frozen_clock [] None)))
    = ["out/frame_000000.jpg"%string].
Proof.
  rewrite (proj1 (@first_frame_gate Demo.libs ["out"%string] pos_zero
                    "frame" Demo.session
                    (Demo.world [true] [Some 7] Demo.props_640_480
                       Demo.frozen_clock [] None) eq_refl) eq_refl).
  vm_compute. split; reflexivity.
Defined.

(** The writer refuses the second frame: the first file is there, the
    exception reaches the caller. *)
Lemma save_error_propagates_witness :
  option_map (fun x => fst (fst x))
    (save_stream_loop (1 + 1) (["out"%string] : @Path Demo.libs) pos_zero
       "frame" loop_start Demo.session
       (Demo.world [true] [Some 7; Some 8] Demo.props_640_480
          Demo.frozen_clock [true; false] None))
  = Some (Raise FrameSaveError).
Proof.
  pose (w := Demo.world [true] [Some 7; Some 8] Demo.props_640_480
               Demo.frozen_clock [true; false] None).
  let st := eval vm_compute in
    (loop_iter 1 (["out"%string] : @Path Demo.libs) pos_zero "frame"
       loop_start Demo.session w) in
  match st with
  | Some (?v1, ?s1, ?w1) =>
      let st' := eval vm_compute in
        (loop_try (["out"%string] : @Path Demo.libs) pos_zero "frame"
           v1 s1 w1) in
      match st' with
      | (_, ?s2, ?w2) =>
          destruct (@save_error_propagates Demo.libs ["out"%string] pos_zero
                      "frame" 1 0 loop_start Demo.session w v1 s1 w1
                      FrameSaveError s2 w2
                      ltac:(vm_compute; reflexivity)
                      ltac:(vm_compute; reflexivity)) as [H _]
      end
  end.
  fold w. rewrite (H eq_refl). reflexivity.
Defined.



Lemma save_frame_str_raises_AttributeError_witness :
  @save_frame Demo.libs 7 (PStr "out/a.jpg") Demo.session
    (Demo.world [true] [] Demo.props_640_480 Demo.frozen_clock [] None)
  = (Raise AttributeError, Demo.session,
     Demo.world [true] [] Demo.props_640_480 Demo.frozen_clock [] None) /\
  exists p, @PPath Demo.libs ["out"%string; "a.jpg"%string] = PPath p.
Proof.
  split.
  - apply (proj1 (@save_frame_str_raises_AttributeError Demo.libs 7
                    Demo.session
                    (Demo.world [true] [] Demo.props_640_480
                       Demo.frozen_clock [] None))).
  - apply (proj2 (@save_frame_str_raises_AttributeError Demo.libs 7
                    Demo.session
                    (Demo.world [true] [] Demo.props_640_480
                       Demo.frozen_clock [] None))).
    left. eexists. reflexivity.
Defined.

(** C6 on a cancelled run.  The recorder is started on a source of two
    frames with the default interval; the cancellation is raised when the
    third interruptible call, the [save_frame] of the first frame, returns.
    The file [frame_000000.jpg] has been written, and [save_stream] returns
    the count 0. *)
Theorem cancelled_write_not_counted :
  match save_stream 3 (@PStr Demo.libs "out") pos_zero "frame" Demo.session
          (Demo.world [true] [Some 7; Some 8] Demo.props_640_480
             Demo.frozen_clock [] (Some 2)) with
  | Some (Ok (dir, n), _, w') =>
      dir = ["out"%string] /\ n = 0%N /\
      written w' = ["out/frame_000000.jpg"%string]
  | _ => False
  end.
Proof. vm_compute. repeat split. Qed.

(** ** The cleanup report *)

Section CleanupProperties.

Import ImageValidator.

Lemma int_truediv_nonzero (a b : Z) :
  b <> 0%Z -> int_truediv a b <> Raise ZeroDivisionError.
Proof.
  intros Hb. unfold int_truediv.
  destruct a, b; try (now elim Hb); try discriminate;
    match goal with
    | |- context [SFdiv_core_binary ?p ?m ?x ?ex ?y ?ey] =>
        destruct (SFdiv_core_binary p m x ex y ey) as [[q e] l]
    end;
    match goal with
    | |- context [binary_round_aux ?p ?m ?sg ?q ?e ?l] =>
        destruct (binary_round_aux p m sg q e l)
    end; discriminate.
Qed.

(** C9. [success_rate] is 0.0 when nothing was processed, and otherwise
    [(total_processed - corrupted_removed) / total_processed * 100],
    computed as Python computes it: the division of the two ints rounded
    to a float, then the float product with 100.  The division is never
    a division by zero. *)
Theorem success_rate_formula {P : Type} (r : CleanupResult P) :
  (total_processed r = 0%Z -> success_rate r = Ok pos_zero) /\
  (total_processed r <> 0%Z ->
   success_rate r = percent_kept (total_processed r) (corrupted_removed r) /\
   success_rate r <> Raise ZeroDivisionError).
Proof.
  unfold success_rate, percent_kept, float_mul_int. split.
  - intros ->. reflexivity.
  - intros H. destruct (Z.eqb_spec (total_processed r) 0) as [E|_];
      [contradiction|].
    split; [reflexivity|].
    pose proof (@int_truediv_nonzero
                  (total_processed r - corrupted_removed r) _ H) as Hz.
    destruct (int_truediv _ _); [discriminate|congruence].
Qed.

End CleanupProperties.

(** Two reports: nothing processed; four files of which one was removed,
    that is 75.0 percent. *)
Lemma success_rate_formula_witness :
  ImageValidator.success_rate
    {| ImageValidator.total_processed := 0;
       ImageValidator.corrupted_removed := 0;
       ImageValidator.removed_files := @nil string |} = Ok pos_zero /\
  ImageValidator.success_rate
    {| ImageValidator.total_processed := 4;
       ImageValidator.corrupted_removed := 1;
       ImageValidator.removed_files := @nil string |} = Ok (of_Z 75).
Proof.
  split.
  - apply (proj1 (success_rate_formula
                    {| ImageValidator.total_processed := 0;
                       ImageValidator.corrupted_removed := 0;
                       ImageValidator.removed_files := @nil string |})).
    reflexivity.
  - destruct (proj2 (success_rate_formula
                       {| ImageValidator.total_processed := 4;
                          ImageValidator.corrupted_removed := 1;
                          ImageValidator.removed_files := @nil string |}))
      as [H _]; [discriminate|].
    rewrite H. reflexivity.
Defined.

(** Float rounding is part of the result: two files kept out of three give
    66.66666666666666, the product of the rounded quotient with 100. *)
Lemma success_rate_two_thirds :
  ImageValidator.success_rate
    {| ImageValidator.total_processed := 3;
       ImageValidator.corrupted_removed := 1;
       ImageValidator.removed_files := @nil string |}
  = Ok (S754_finite false 4691249611844266 (-46)).
Proof. reflexivity. Qed.

(** * Further properties of the code *)

(** ** Opening and closing *)

Section OpeningProperties.

Context {L : Libs}.

(** [open()] when the backend cannot open the source. *)
Lemma open_refused_eq (s : CameraFrameCapture) (w : World) :
  _is_open s = false -> hd false (connects (backend w)) = false ->
  open s w =
    (Raise CameraOpenError, s,
     note_release (acquired w false) (next_cap (backend w))).
Proof.
  intros Eo Ec.
  unfold open, VideoCapture_new, cap_isOpened, cap_release, bind, get_self,
    raise.
  rewrite Eo. simpl. rewrite Ec. unfold update.
  do 3 (simpl; rewrite ?Nat.eqb_refl). reflexivity.
Qed.

(** [open()] when the source opens and the configuration converts. *)
Lemma open_accepted_eq (s : CameraFrameCapture) (w : World) :
  _is_open s = false -> hd false (connects (backend w)) = true ->
  config_fits (config s) ->
  open s w =
    (Ok tt, opened_with s (next_cap (backend w)),
     applied (acquired w true)
       (config_sets (next_cap (backend w)) (config s))).
Proof.
  intros Eo Ec [Hw Hh].
  unfold open, VideoCapture_new, cap_isOpened, set_if_given, cap_set,
    set_cap, set_is_open, lift, bind, get_self, ret, config_sets.
  rewrite Eo. simpl. rewrite Ec. unfold update.
  do 3 (simpl; rewrite ?Nat.eqb_refl).
  destruct (width (config s)) as [wd|] eqn:Ew; simpl;
    [rewrite (Hw wd eq_refl); simpl|];
    (destruct (height (config s)) as [ht|] eqn:Eh; simpl;
     [rewrite (Hh ht eq_refl); simpl|];
     (destruct (fps (config s)) as [f|]; reflexivity)).
Qed.

(** [open()] on a closed session constructs one capture, however it
    ends. *)
Lemma open_acquires (s : CameraFrameCapture) (w : World) :
  _is_open s = false ->
  next_cap (backend (snd (after (open s w)))) = S (next_cap (backend w)).
Proof.
  intros Eo.
  unfold open, VideoCapture_new, cap_isOpened, cap_release, set_if_given,
    cap_set, set_cap, set_is_open, lift, bind, get_self, ret, raise.
  rewrite Eo. simpl.
  destruct (hd false (connects (backend w))) eqn:Ec; unfold update;
    do 3 (simpl; rewrite ?Nat.eqb_refl); [|reflexivity].
  destruct (width (config s)) as [wd|]; simpl;
    [destruct (float_of_int wd); simpl; [|reflexivity]|];
    (destruct (height (config s)) as [ht|]; simpl;
     [destruct (float_of_int ht); simpl; [|reflexivity]|];
     (destruct (fps (config s)) as [f|]; reflexivity)).
Qed.

(** X1. A second [open()].  After an [open()] that returned, whether it
    found the session open or opened it, a second call acquires no capture
    and changes nothing.  After an [open()] that raised, the object is as
    it was, closed, one capture has been constructed, and a second call
    starts over: it constructs another capture. *)
Theorem second_open_noop_or_retry (s : CameraFrameCapture) (w : World) :
  (result (open s w) = Ok tt ->
   open (fst (after (open s w))) (snd (after (open s w)))
   = (Ok tt, fst (after (open s w)), snd (after (open s w)))) /\
  (forall e, result (open s w) = Raise e ->
   fst (after (open s w)) = s /\ _is_open s = false /\
   next_cap (backend (snd (after (open s w))))
     = S (next_cap (backend w)) /\
   next_cap
     (backend
        (snd (after (open (fst (after (open s w)))
                       (snd (after (open s w)))))))
     = S (S (next_cap (backend w)))).
Proof.
  destruct (open_cases s w)
    as [[Eo E]|[[Eo [e0 [w' E]]]|[Eo [cap [w' [E _]]]]]].
  - split.
    + intros _. rewrite E. simpl. exact E.
    + intros e H. rewrite E in H. discriminate.
  - split.
    + intros H. rewrite E in H. discriminate.
    + intros e _. pose proof (open_acquires s w Eo) as H1.
      pose proof (open_acquires s w' Eo) as H2.
      rewrite E in H1 |- *. simpl in H1 |- *.
      split; [reflexivity|]. split; [exact Eo|]. split; [exact H1|].
      rewrite <- H1. exact H2.
  - split.
    + intros _. rewrite E. simpl. unfold open, bind, get_self. reflexivity.
    + intros e H. rewrite E in H. discriminate.
Qed.

(** X2. When the backend cannot open the source, [open()] raises
    [CameraOpenError] and leaves the object as it was; the capture object
    that failed has had [release()] called on it, once, before the
    exception, it is not open, and no property was set on it. *)
Theorem open_failure_releases_capture (s : CameraFrameCapture) (w : World) :
  _is_open s = false -> hd false (connects (backend w)) = false ->
  result (open s w) = Raise CameraOpenError /\
  fst (after (open s w)) = s /\
  released (backend (snd (after (open s w))))
    = next_cap (backend w) :: released (backend w) /\
  is_Opened (status (backend (snd (after (open s w))))
               (next_cap (backend w))) = false /\
  prop_sets (backend (snd (after (open s w)))) = prop_sets (backend w).
Proof.
  intros Eo Ec. rewrite (open_refused_eq s w Eo Ec). simpl.
  unfold update. rewrite !Nat.eqb_refl. repeat split.
Qed.

(** X3. When the source opens, [open()] sets exactly the properties the
    configuration gives, the width first, then the height, then the frame
    rate, each as a float, on the new capture; it stores that capture and
    flags the session open; nothing is released. *)
Theorem open_applies_configuration (s : CameraFrameCapture) (w : World) :
  _is_open s = false -> hd false (connects (backend w)) = true ->
  config_fits (config s) ->
  result (open s w) = Ok tt /\
  fst (after (open s w)) = opened_with s (next_cap (backend w)) /\
  prop_sets (backend (snd (after (open s w))))
    = config_sets (next_cap (backend w)) (config s)
        ++ prop_sets (backend w) /\
  status (backend (snd (after (open s w)))) (next_cap (backend w))
    = Opened /\
  released (backend (snd (after (open s w)))) = released (backend w).
Proof.
  intros Eo Ec Hf. rewrite (open_accepted_eq s w Eo Ec Hf). simpl.
  unfold update. rewrite Nat.eqb_refl. repeat split.
Qed.

End OpeningProperties.

(** ** Captures are not leaked *)

Section Keeping.

Context {L : Libs}.

(** A property that looks at the object and at what became of the
    captures only. *)
Variable P : CameraFrameCapture -> World -> Prop.

Hypothesis P_status :
  forall s w w',
    status (backend w') = status (backend w) ->
    released (backend w') = released (backend w) -> P s w -> P s w'.

Hypothesis P_open : keeps P open.

Lemma keeps_bind {A B} (m : M A) (k : A -> M B) :
  keeps P m -> (forall a, keeps P (k a)) -> keeps P (bind m k).
Proof.
  intros Hm Hk s w H. specialize (Hm s w H). unfold bind.
  destruct (m s w) as [[[a|e] s1] w1]; simpl in *.
  - apply Hk. exact Hm.
  - exact Hm.
Qed.

Lemma keeps_quiet {A} (m : M A) :
  (forall s w,
     fst (after (m s w)) = s /\
     status (backend (snd (after (m s w)))) = status (backend w) /\
     released (backend (snd (after (m s w)))) = released (backend w)) ->
  keeps P m.
Proof.
  intros Hq s w H. destruct (Hq s w) as (E1 & E2 & E3). rewrite E1.
  eapply P_status; eassumption.
Qed.

Lemma keeps_ensure_open : keeps P ensure_open.
Proof. intros s w H. rewrite ensure_open_eq. now apply P_open. Qed.

Lemma keeps_the_cap : keeps P the_cap.
Proof.
  apply keeps_quiet. intros s w. unfold the_cap, bind, get_self, ret, raise.
  destruct (_cap s); simpl; now split.
Qed.

Lemma keeps_read : keeps P read.
Proof.
  unfold read. apply keeps_bind; [apply keeps_ensure_open|intros _].
  apply keeps_bind; [apply keeps_the_cap|intros cap].
  apply keeps_bind.
  - apply keeps_quiet. intros s w. now split.
  - intros [frame|]; apply keeps_quiet; intros s w;
      unfold bind, get_self, ret, raise;
      [destruct (convert_to_rgb (config s))|]; now split.
Qed.

Lemma keeps_get_actual_properties : keeps P get_actual_properties.
Proof.
  unfold get_actual_properties.
  apply keeps_bind; [apply keeps_ensure_open|intros _].
  repeat (first
    [ apply keeps_bind; [apply keeps_the_cap|intros ?]
    | apply keeps_bind;
        [apply keeps_quiet; intros s w; unfold lift; now split|intros ?]
    | apply keeps_quiet; intros s w; now split ]).
Qed.

Lemma keeps_save_frame frame file_path :
  keeps P (save_frame frame file_path).
Proof.
  apply keeps_quiet. intros s w.
  unfold save_frame, attr_parent, mkdir, imwrite, bind, get_self, ret, raise.
  destruct file_path as [str|p]; simpl; [now split|].
  destruct (mkdir_fails (disk w) (parent p)); simpl; [now split|].
  destruct (hd true (imwrite_results (disk w))); simpl; now split.
Qed.

Lemma keeps_next g : keeps P (__next__ g).
Proof.
  destruct g; simpl.
  - apply keeps_bind; [apply keeps_ensure_open|intros _]. apply keeps_read.
  - apply keeps_read.
  - apply keeps_quiet. intros s w. now split.
Qed.

Hypothesis P_close : keeps P close.

(** Every call on an existing object keeps the property. *)
Lemma keeps_run_op (o : Op) (s : CameraFrameCapture) (w : World) :
  is_init o = false -> P s w -> P (fst (run_op o s w)) (snd (run_op o s w)).
Proof.
  intros Hi H. destruct o; simpl; try discriminate.
  - now apply P_open.
  - now apply P_close.
  - now apply keeps_read.
  - now apply keeps_get_actual_properties.
  - now apply keeps_next.
  - now apply P_open.
  - now apply P_close.
  - now apply keeps_save_frame.
Qed.

Lemma keeps_run_ops (ops : list Op) (s : CameraFrameCapture) (w : World) :
  forallb (fun o => negb (is_init o)) ops = true ->
  P s w -> P (fst (run_ops ops s w)) (snd (run_ops ops s w)).
Proof.
  revert s w. induction ops as [|o ops IH]; intros s w Hn H; simpl.
  - exact H.
  - simpl in Hn. apply andb_prop in Hn. destruct Hn as [Ho Hn].
    apply negb_true_iff in Ho.
    pose proof (@keeps_run_op o s w Ho H) as H1.
    destruct (run_op o s w) as [s1 w1]. now apply IH.
Qed.

End Keeping.

Section NoLeak.

Context {L : Libs}.

Variable cfg : CameraConfig.

Hypothesis cfg_fits : config_fits cfg.

Lemma tidy_status s w w' :
  status (backend w') = status (backend w) ->
  released (backend w') = released (backend w) ->
  tidy cfg s w -> tidy cfg s w'.
Proof.
  intros E Er (Hc & Hok & Hs & Ha). split; [exact Hc|split; [|split]].
  - eapply session_ok_same_status; eassumption.
  - intros h Hh. apply Hs. now rewrite <- E.
  - intros h Hh. rewrite E in Hh. rewrite Er. now apply Ha.
Qed.

(** While the session is closed, no capture is open at all, and
    [release()] has been called on every capture that opened. *)
Lemma tidy_closed_none_open s w :
  tidy cfg s w -> _is_open s = false ->
  forall h,
    status (backend w) h <> Opened /\
    (was_initialized (status (backend w) h) = true ->
     In h (released (backend w))).
Proof.
  intros (_ & [_ Hcl] & Hs & Ha) Eo h. split.
  - intros Hh. specialize (Hs h Hh). rewrite (Hcl Eo) in Hs. discriminate.
  - intros Hh. destruct (Ha h Hh) as [Hc|Hin]; [|exact Hin].
    rewrite (Hcl Eo) in Hc. discriminate.
Qed.

Lemma tidy_open : keeps (tidy cfg) open.
Proof.
  intros s w H. pose proof H as (Hc & Hok & Hs & Ha).
  destruct (_is_open s) eqn:Eo.
  - assert (E : open s w = (Ok tt, s, w)).
    { unfold open, bind, get_self. now rewrite Eo. }
    rewrite E. exact H.
  - pose proof (tidy_closed_none_open H Eo) as Hnone.
    destruct (hd false (connects (backend w))) eqn:Ec.
    + rewrite (open_accepted_eq s w Eo Ec); [|now rewrite Hc]. simpl.
      split; [exact Hc|split; [|split]].
      * eapply open_session_ok with (cap := next_cap (backend w)); simpl;
          try reflexivity.
        unfold update. now rewrite Nat.eqb_refl.
      * intros h. simpl. unfold update.
        destruct (Nat.eqb_spec h (next_cap (backend w))) as [->|Hne];
          [reflexivity|].
        intros Hh. now elim (proj1 (Hnone h)).
      * intros h. simpl. unfold update.
        destruct (Nat.eqb_spec h (next_cap (backend w))) as [->|Hne];
          [now left|].
        intros Hh. right. now apply (proj2 (Hnone h)).
    + rewrite (open_refused_eq s w Eo Ec). simpl.
      split; [exact Hc|split; [|split]].
      * apply closed_session_ok; [exact Eo|]. now apply Hok.
      * intros h Hh. exfalso. simpl in Hh. unfold update in Hh.
        destruct (h =? next_cap (backend w)).
        -- rewrite Nat.eqb_refl in Hh. discriminate.
        -- exact (proj1 (Hnone h) Hh).
      * intros h Hh. right. simpl in Hh |- *. unfold update in Hh.
        destruct (h =? next_cap (backend w)).
        -- rewrite Nat.eqb_refl in Hh. discriminate.
        -- right. now apply (proj2 (Hnone h)).
Qed.

Lemma tidy_close : keeps (tidy cfg) close.
Proof.
  intros s w (Hc & Hok & Hs & Ha). rewrite close_eq. simpl.
  split; [exact Hc|split; [|split]].
  - now apply closed_session_ok.
  - intros h Hh. exfalso. unfold closed_world in Hh.
    destruct (_cap s) as [c|] eqn:Ecap.
    + simpl in Hh. unfold update in Hh.
      destruct (Nat.eqb_spec h c) as [E|Hne].
      * revert Hh. destruct (status (backend w) c); simpl; discriminate.
      * specialize (Hs h Hh). congruence.
    + specialize (Hs h Hh). congruence.
  - intros h Hh. right. unfold closed_world in *.
    destruct (_cap s) as [c|] eqn:Ecap.
    + simpl in Hh |- *. unfold update in Hh.
      destruct (Nat.eqb_spec h c) as [E|Hne]; [now left|].
      destruct (Ha h Hh) as [E|Hin]; [congruence|now right].
    + destruct (Ha h Hh) as [E|Hin]; [congruence|exact Hin].
Qed.

Lemma run_ops_app (ops1 ops2 : list Op) s w :
  run_ops (ops1 ++ ops2) s w
  = run_ops ops2 (fst (run_ops ops1 s w)) (snd (run_ops ops1 s w)).
Proof.
  revert s w. induction ops1 as [|o ops1 IH]; intros s w; simpl.
  - reflexivity.
  - destruct (run_op o s w) as [s1 w1]. apply IH.
Qed.

End NoLeak.

(** What the condition on the configuration is for: when the source opens
    and the width does not convert to a float, [open()] raises
    [OverflowError] with the new capture open and not stored, and
    [release()] is not called on it. *)
Lemma open_overflow_skips_release {L : Libs}
    (s : CameraFrameCapture) (w : World) (wd : Z) :
  _is_open s = false -> hd false (connects (backend w)) = true ->
  width (config s) = Some wd -> float_of_int wd = Raise OverflowError ->
  result (open s w) = Raise OverflowError /\
  fst (after (open s w)) = s /\
  status (backend (snd (after (open s w)))) (next_cap (backend w))
    = Opened /\
  released (backend (snd (after (open s w)))) = released (backend w).
Proof.
  intros Eo Ec Ew Ef.
  unfold open, VideoCapture_new, cap_isOpened, set_if_given, lift, bind,
    get_self, raise.
  rewrite Eo. simpl. rewrite Ec, Ew. unfold update.
  do 3 (simpl; rewrite ?Nat.eqb_refl). rewrite Ef. simpl.
  rewrite Nat.eqb_refl. repeat split.
Qed.

(** X4. The session leaks no capture, when the configured width and
    height convert to floats.  Start from a state where the only open
    capture, if any, is the one the session holds, and where [release()]
    has been called on every other capture that opened.  Then after any
    sequence of [open], [close], [read], property queries, iteration
    steps, [with]-block entries and exits and [save_frame] calls on the
    object, whether they return or raise, followed by [close()],
    [release()] has been called on every capture that ever opened, and
    none is left open.  A capture counts as released once [release()] was
    called on it, also when that call raised, which [close()]
    suppresses. *)
Theorem close_leaves_no_capture_open {L : Libs}
    (cfg : CameraConfig) (ops : list Op) (s : CameraFrameCapture)
    (w : World) :
  config_fits cfg ->
  tidy cfg s w ->
  forallb (fun o => negb (is_init o)) ops = true ->
  forall h,
    status (backend (snd (run_ops (ops ++ [Call_close]) s w))) h <> Opened /\
    (was_initialized
       (status (backend (snd (run_ops (ops ++ [Call_close]) s w))) h) = true ->
     In h (released (backend (snd (run_ops (ops ++ [Call_close]) s w))))).
Proof.
  intros Hfit H Hn h. rewrite run_ops_app.
  pose proof (keeps_run_ops (P:=tidy cfg) (@tidy_status L cfg)
                (@tidy_open L cfg Hfit) (@tidy_close L cfg)
                ops s w Hn H) as H1.
  destruct (run_ops ops s w) as [s1 w1]. simpl in *.
  pose proof (@tidy_close L cfg _ _ H1) as H2.
  apply (tidy_closed_none_open H2).
  rewrite close_eq. reflexivity.
Qed.

(** ** Reading and iterating *)

Section ReadingProperties.

Context {L : Libs}.

Lemma open_when_open (s : CameraFrameCapture) (w : World) :
  _is_open s = true -> open s w = (Ok tt, s, w).
Proof. intros Eo. unfold open, bind, get_self. now rewrite Eo. Qed.

Lemma open_keeps_config (s : CameraFrameCapture) (w : World) :
  config (fst (after (open s w))) = config s.
Proof.
  destruct (open_cases s w)
    as [[Eo E]|[[Eo [e [w' E]]]|[Eo [cap [w' [E _]]]]]]; now rewrite E.
Qed.

(** [read()] on an open session takes the next answer of the backend. *)
Lemma read_open_session (s : CameraFrameCapture) (w : World) cap :
  _is_open s = true -> _cap s = Some cap ->
  read s w =
    match hd None (frames (backend w)) with
    | None => (Raise CameraReadError, s, pop_frame w)
    | Some f => (Ok (decoded s f), s, pop_frame w)
    end.
Proof.
  intros Eo Ec.
  rewrite (@read_after_open _ s s w w cap (open_when_open s w Eo) Ec).
  destruct (hd None (frames (backend w))); reflexivity.
Qed.

Lemma nexts_closed (k : nat) (s : CameraFrameCapture) (w : World) :
  nexts k GEN_CLOSED s w = (repeat (Raise StopIteration) k, GEN_CLOSED, s, w).
Proof.
  induction k as [|k IH]; simpl; [reflexivity|].
  unfold raise. simpl. now rewrite IH.
Qed.

(** On an open session the running generator hands out the frames the
    backend has, in their order. *)
Lemma nexts_suspended (fs : list ndarray) :
  forall (s : CameraFrameCapture) (w : World) cap rest,
    _is_open s = true -> _cap s = Some cap ->
    frames (backend w) = map Some fs ++ rest ->
    exists w',
      nexts (List.length fs) GEN_SUSPENDED s w
        = (map (fun f => Ok (decoded s f)) fs,
           GEN_SUSPENDED, s, w') /\
      frames (backend w') = rest.
Proof.
  induction fs as [|f fs IH]; intros s w cap rest Eo Ec Hf.
  - exists w. now split.
  - cbn [List.length nexts __next__]. rewrite (read_open_session s w Eo Ec), Hf.
    cbn [map app hd gen_after].
    destruct (IH s (pop_frame w) cap rest Eo Ec) as (w' & E & Hr).
    { simpl. now rewrite Hf. }
    rewrite E. exists w'. now split.
Qed.

(** The first [next()] of a generator is a [read()]. *)
Lemma next_created (s : CameraFrameCapture) (w : World) :
  __next__ GEN_CREATED s w = read s w.
Proof.
  cbn [__next__]. unfold bind at 1. rewrite ensure_open_eq.
  destruct (open_cases s w)
    as [[Eo E]|[[Eo [e [w' E]]]|[Eo [cap [w' [E _]]]]]].
  - now rewrite E.
  - rewrite E. symmetry. now apply read_open_raises.
  - rewrite E.
    rewrite (@read_after_open _ _ _ _ _ cap E eq_refl).
    rewrite (@read_open_session
               {| config := config s; _cap := Some cap; _is_open := true |}
               w' cap eq_refl eq_refl).
    destruct (hd None (frames (backend w'))); reflexivity.
Qed.

(** X5. Iterating over the object yields the frames of the source in
    their order, each converted as the configuration asks, and takes from
    the source exactly the frames it yields: when the session is open or
    can be opened and the backend has the frames [fs] ready, as many
    [next()] calls return them, and the backend is left with what came
    after. *)
Theorem iteration_yields_frames_in_order
    (s : CameraFrameCapture) (w : World) (fs : list ndarray)
    (rest : list (option ndarray)) :
  session_inv s w -> result (open s w) = Ok tt ->
  frames (backend w) = map Some fs ++ rest ->
  fst (fst (fst (nexts (List.length fs) __iter__ s w)))
    = map (fun f => Ok (decoded s f)) fs /\
  frames (backend (snd (nexts (List.length fs) __iter__ s w))) = rest.
Proof.
  intros Hinv Hok Hf. destruct fs as [|f fs]; [now split|].
  destruct (open_ok_state Hinv Hok)
    as (cap & s1 & w1 & E & Ec & Eo & Ef & _).
  assert (Hc : config s1 = config s).
  { pose proof (open_keeps_config s w) as H. now rewrite E in H. }
  cbn [List.length nexts]. unfold __iter__. rewrite next_created.
  rewrite (read_after_open _ _ E Ec), Ef, Hf. cbn [map app hd].
  destruct (@nexts_suspended fs s1 (pop_frame w1) cap rest Eo Ec)
    as (w' & En & Hr).
  { simpl. now rewrite Ef, Hf. }
  cbn [gen_after].
  change (snd (after (cap_read cap s1 w1))) with (pop_frame w1).
  rewrite En. simpl. unfold decoded. rewrite Hc. split; [|exact Hr].
  f_equal.
Qed.

(** X6. A failed read ends the iteration for good.  When the backend has
    no frame, the [next()] call raises [CameraReadError], having asked the
    backend once; every [next()] after it raises [StopIteration] and asks
    the backend nothing: the generator does not resume, even if the source
    has frames again. *)
Theorem failed_read_ends_iteration
    (g : GenState) (k : nat) (s : CameraFrameCapture) (w : World) :
  g <> GEN_CLOSED ->
  session_inv s w -> result (open s w) = Ok tt ->
  hd None (frames (backend w)) = None ->
  fst (fst (fst (nexts (S k) g s w)))
    = Raise CameraReadError :: repeat (Raise StopIteration) k /\
  snd (fst (fst (nexts (S k) g s w))) = GEN_CLOSED /\
  frames (backend (snd (nexts (S k) g s w))) = tl (frames (backend w)).
Proof.
  intros Hg Hinv Hok Hf.
  destruct (open_ok_state Hinv Hok)
    as (cap & s1 & w1 & E & Ec & Eo & Ef & _).
  assert (Hn : __next__ g s w = (Raise CameraReadError, s1, pop_frame w1)).
  { assert (Hr : read s w = (Raise CameraReadError, s1, pop_frame w1)).
    { rewrite (read_after_open _ _ E Ec), Ef, Hf. reflexivity. }
    destruct g; [now rewrite next_created|exact Hr|now elim Hg]. }
  cbn [nexts]. rewrite Hn. cbn [gen_after]. rewrite nexts_closed. simpl.
  now rewrite Ef.
Qed.

End ReadingProperties.

(** ** Recording *)

Section RecordingProperties.

Context {L : Libs}.

(** [save_frame] on a [Path], case by case. *)
Lemma save_frame_on_path frame (p : Path) s w :
  save_frame frame (PPath p) s w =
    if mkdir_fails (disk w) (parent p) then (Raise OSError, s, w)
    else if hd true (imwrite_results (disk w))
         then (Ok (PPath p), s,
               after_save w (parent p)
                 (Some (str_of_Path p, encoded s frame)))
         else (Raise FrameSaveError, s, after_save w (parent p) None).
Proof.
  unfold save_frame, attr_parent, mkdir, imwrite, after_save, encoded.
  unfold bind, get_self, ret, raise. simpl.
  destruct (mkdir_fails (disk w) (parent p)); simpl; [reflexivity|].
  destruct (hd true (imwrite_results (disk w))); reflexivity.
Qed.

Variable save_path : Path.
Variable interval : float.
Variable filename_prefix : string.

(** One pass of the loop on an open session.  The object is not touched
    and nothing is released.  A pass that completes either found the gate
    closed, and then read no frame, wrote no file and changed no variable;
    or found it open, took the next frame of the backend, wrote it under
    the name of the current counter, recorded the clock reading and
    incremented the counter. *)
Lemma pass_on_open_session v s w cap r s' w' :
  _is_open s = true -> _cap s = Some cap ->
  loop_try save_path interval filename_prefix v s w = (r, s', w') ->
  s' = s /\
  released (backend w') = released (backend w) /\
  match r with
  | Ok v' =>
      (geb (sub (clock w (clock_reads w)) (last_save_time v)) interval
         = false /\
       v' = v /\
       frames (backend w') = frames (backend w) /\
       files (disk w') = files (disk w))
      \/
      (geb (sub (clock w (clock_reads w)) (last_save_time v)) interval
         = true /\
       v' = {| last_save_time := clock w (clock_reads w);
               frame_count := N.succ (frame_count v) |} /\
       exists f,
         hd None (frames (backend w)) = Some f /\
         frames (backend w') = tl (frames (backend w)) /\
         files (disk w') =
           (frame_path save_path filename_prefix (frame_count v),
            encoded s (decoded s f)) :: files (disk w))
  | Raise _ => True
  end.
Proof.
  intros Eo Ec. unfold loop_try. unfold bind at 1.
  destruct (checkpoint time_time s w) as [[r0 s0] w0] eqn:E0.
  apply checkpoint_inv in E0.
  destruct E0 as (r00 & w00 & Et & Hd0 & Hb0 & Hs0).
  unfold time_time in Et. inversion Et; subst r00 s0 w00; clear Et.
  simpl in Hd0, Hb0.
  destruct r0 as [t|e0];
    [|intros H; injection H as ? ? ?; subst r s' w'; rewrite Hb0; auto].
  assert (Ht : t = clock w (clock_reads w)).
  { destruct (sigint (set_clock_reads w (S (clock_reads w)))) as [[|k]|];
      destruct Hs0 as [Hr _]; try discriminate; now inversion Hr. }
  subst t. clear Hs0.
  destruct (geb (sub (clock w (clock_reads w)) (last_save_time v)) interval)
    eqn:Eg.
  2:{ intros H. injection H as ? ? ?. subst r s' w'.
      rewrite Hb0, Hd0. auto 10. }
  unfold bind at 1.
  destruct (checkpoint read s w0) as [[r1 s1] w1] eqn:E1.
  apply checkpoint_inv in E1.
  destruct E1 as (r10 & w10 & Er & Hd1 & Hb1 & Hs1).
  rewrite (read_open_session s w0 Eo Ec), Hb0 in Er.
  assert (Hw10 : s1 = s /\ w10 = pop_frame w0).
  { destruct (hd None (frames (backend w))); now inversion Er. }
  destruct Hw10 as [-> ->].
  assert (Hb1' : frames (backend w1) = tl (frames (backend w)) /\
                 released (backend w1) = released (backend w)).
  { rewrite Hb1. simpl. now rewrite Hb0. }
  assert (Hd1' : disk w1 = disk w) by (rewrite Hd1; simpl; exact Hd0).
  destruct r1 as [frame|e1];
    [|intros H; injection H as ? ? ?; subst r s' w';
      split; [reflexivity|]; split; [apply Hb1'|exact I]].
  unfold bind at 1.
  match goal with
  | |- context [checkpoint ?m s w1] =>
      destruct (checkpoint m s w1) as [[r2 s2] w2] eqn:E2
  end.
  apply checkpoint_inv in E2.
  destruct E2 as (r20 & w20 & Es & Hd2 & Hb2 & Hs2).
  rewrite save_frame_on_path, Hd1' in Es.
  assert (Hs2' : s2 = s).
  { destruct (mkdir_fails (disk w) _); [now inversion Es|].
    destruct (hd true (imwrite_results (disk w))); now inversion Es. }
  subst s2.
  assert (Hb20 : backend w20 = backend w1).
  { destruct (mkdir_fails (disk w) _); [now inversion Es|].
    destruct (hd true (imwrite_results (disk w))); now inversion Es. }
  destruct r2 as [saved|e2]; intros H; injection H as ? ? ?;
    subst r s' w';
    (split; [reflexivity|]);
    (split; [rewrite Hb2, Hb20; apply Hb1'|]); [|exact I].
  right. split; [reflexivity|]. split; [reflexivity|].
  assert (Hr20 : exists x, r20 = Ok x).
  { destruct (sigint w20) as [[|k]|]; destruct Hs2 as [Hr _];
      try discriminate; eauto. }
  destruct Hr20 as [x ->].
  assert (Hf : exists f, hd None (frames (backend w)) = Some f /\
                         frame = decoded s f).
  { destruct (hd None (frames (backend w))) as [f|];
      injection Er as Hr10; subst r10;
      destruct (sigint (pop_frame w0)) as [[|k]|]; destruct Hs1 as [Hr _];
      try discriminate; injection Hr as ->; exists f; now split. }
  destruct Hf as (f & Hf & ->). exists f. split; [exact Hf|].
  split; [rewrite Hb2, Hb20; apply Hb1'|].
  rewrite Hd2.
  destruct (mkdir_fails (disk w) _); [discriminate|].
  destruct (hd true (imwrite_results (disk w))); [|discriminate].
  inversion Es; subst. simpl. now rewrite Hd1'.
Qed.

(** X7. The passes that complete save the frames of the source in
    their order, one file per frame taken, under consecutive numbers: on an
    open session, after any number of completed passes the backend has
    handed out a run [fs] of frames, the counter has advanced by their
    number, and the files written are these frames, each decoded by
    [read()] and encoded again by [save_frame], under the names numbered
    from the counter the passes started with.  The object is as it was and
    no capture was released. *)
Theorem completed_passes_save_frames_in_order (n : nat) :
  forall v s w cap v1 s1 w1,
    _is_open s = true -> _cap s = Some cap ->
    loop_iter n save_path interval filename_prefix v s w
      = Some (v1, s1, w1) ->
    s1 = s /\
    released (backend w1) = released (backend w) /\
    exists fs,
      frames (backend w) = map Some fs ++ frames (backend w1) /\
      frame_count v1 = (frame_count v + N.of_nat (List.length fs))%N /\
      files (disk w1) =
        rev (combine
               (frame_paths save_path filename_prefix (frame_count v)
                  (List.length fs))
               (map (fun f => encoded s (decoded s f)) fs))
          ++ files (disk w).
Proof.
  induction n as [|n IH]; intros v s w cap v1 s1 w1 Eo Ec H; simpl in H.
  - injection H as <- <- <-. split; [reflexivity|]. split; [reflexivity|].
    exists []. simpl. repeat split. lia.
  - destruct (loop_try save_path interval filename_prefix v s w)
      as [[[v'|e] s'] w'] eqn:E; [|discriminate].
    destruct (pass_on_open_session v s w Eo Ec E) as (-> & Hrel & Hcase).
    destruct (back_edge s w') as [[[[]|e] s''] w''] eqn:B; [|discriminate].
    apply back_edge_inv in B. destruct B as (-> & Hd & Hb & _).
    destruct (IH _ _ _ cap _ _ _ Eo Ec H) as (-> & Hrel1 & fs & Hf & Hn & Hw).
    rewrite Hb in Hrel1, Hf. rewrite Hd in Hw.
    split; [reflexivity|]. split; [now rewrite Hrel1|].
    destruct Hcase as [(_ & -> & Hfr & Hfi)|(_ & -> & f & Hhd & Hfr & Hfi)].
    + exists fs. rewrite <- Hfr, <- Hfi. auto.
    + exists (f :: fs). cbn [frame_count] in *. split; [|split].
      * rewrite Hfr in Hf. cbn [map app]. rewrite <- Hf.
        destruct (frames (backend w)) as [|x l]; [discriminate|].
        simpl in Hhd. now subst x.
      * rewrite Hn. cbn [List.length]. lia.
      * rewrite Hw, Hfi. unfold frame_paths. cbn [List.length].
        cbn [frame_filenames map combine rev].
        rewrite <- app_assoc. reflexivity.
Qed.

(** X8. The time gate.  On an open session, a pass that completes and
    writes a file found the clock at least [interval] past the last save
    time and records that clock reading as the new last save time; a
    pass that completes and writes no file took no frame from the backend
    either and left the variables as they were. *)
Theorem pass_saves_only_through_gate v s w cap v' s' w' :
  _is_open s = true -> _cap s = Some cap ->
  loop_try save_path interval filename_prefix v s w = (Ok v', s', w') ->
  (files (disk w') <> files (disk w) ->
   geb (sub (clock w (clock_reads w)) (last_save_time v)) interval = true /\
   last_save_time v' = clock w (clock_reads w) /\
   frame_count v' = N.succ (frame_count v)) /\
  (files (disk w') = files (disk w) ->
   v' = v /\ frames (backend w') = frames (backend w)).
Proof.
  intros Eo Ec E.
  destruct (pass_on_open_session v s w Eo Ec E) as (_ & _ & Hcase).
  destruct Hcase as [(Hg & -> & Hfr & Hfi)|(Hg & -> & f & _ & _ & Hfi)].
  - split; [intros Hne; now elim Hne|auto].
  - split; [auto|]. intros Heq. rewrite Hfi in Heq.
    apply (f_equal (@List.length _)) in Heq. simpl in Heq. lia.
Qed.

Lemma loop_keeps_session (fuel : nat) :
  forall v s w cap r s' w',
    _is_open s = true -> _cap s = Some cap ->
    save_stream_loop fuel save_path interval filename_prefix v s w
      = Some (r, s', w') ->
    s' = s /\ released (backend w') = released (backend w).
Proof.
  induction fuel as [|fuel IH]; intros v s w cap r s' w' Eo Ec H;
    [discriminate|].
  simpl in H.
  destruct (loop_try save_path interval filename_prefix v s w)
    as [[[v1|e] s1] w1] eqn:E;
    destruct (pass_on_open_session v s w Eo Ec E) as (-> & Hrel & _).
  - destruct (back_edge s w1) as [[[[]|e] s''] w''] eqn:B;
      apply back_edge_inv in B; destruct B as (-> & _ & Hb & _).
    + destruct (IH _ _ _ cap _ _ _ Eo Ec H) as (-> & Hrel1).
      split; [reflexivity|congruence].
    + injection H as ? ? ?; subst. split; [reflexivity|congruence].
  - destruct e; injection H as ? ? ?; subst; auto.
Qed.

End RecordingProperties.

Section RecordingSession.

Context {L : Libs}.

(** X9. [save_stream] opens the session if it has to and never closes
    it.  Whenever it returns, with a result or with an exception, from the
    set-up or from the loop, the object is as [open()] left it and no
    capture has been released since: a session that was opened is still
    open, and closing it is left to the caller. *)
Theorem save_stream_never_closes
    (fuel : nat) (save_path : PathLike) (interval : float)
    (filename_prefix : string) (s : CameraFrameCapture) (w : World)
    (r : Res (Path * N)) (s' : CameraFrameCapture) (w' : World) :
  session_inv s w ->
  save_stream fuel save_path interval filename_prefix s w
    = Some (r, s', w') ->
  s' = fst (after (open s w)) /\
  released (backend w') = released (backend (snd (after (open s w)))).
Proof.
  intros Hinv. unfold save_stream, save_stream_setup. unfold bind at 1.
  rewrite ensure_open_eq.
  destruct (open s w) as [[[u|e] s1] w1] eqn:E; simpl.
  2:{ intros H. injection H as ? ? ?. now subst. }
  destruct u.
  assert (Hok : result (open s w) = Ok tt) by now rewrite E.
  destruct (open_ok_state Hinv Hok)
    as (cap & s1' & w1' & E' & Ec & Eo & _).
  rewrite E in E'. injection E' as <- <-.
  unfold mkdir, bind, ret.
  destruct (mkdir_fails (disk w1) (to_Path save_path)).
  - intros H. injection H as ? ? ?. now subst.
  - intros H. eapply loop_keeps_session in H; [exact H|exact Eo|exact Ec].
Qed.

(** X10. The set-up of [save_stream] fails before the loop starts,
    whatever the interval.  When the backend cannot open the source the
    call raises [CameraOpenError] and the disk is untouched: no directory
    is made.  When the source opens, the configured width and height
    convert to floats, so that [open()] returns, and the directory cannot
    be made, the call raises [OSError] with the session left open and no
    frame taken from the backend. *)
Theorem save_stream_setup_failures
    (fuel : nat) (save_path : PathLike) (interval : float)
    (filename_prefix : string) (s : CameraFrameCapture) (w : World) :
  _is_open s = false ->
  (hd false (connects (backend w)) = false ->
   exists w',
     save_stream fuel save_path interval filename_prefix s w
       = Some (Raise CameraOpenError, s, w') /\
     disk w' = disk w) /\
  (hd false (connects (backend w)) = true -> config_fits (config s) ->
   mkdir_fails (disk w) (to_Path save_path) = true ->
   exists w',
     save_stream fuel save_path interval filename_prefix s w
       = Some (Raise OSError, opened_with s (next_cap (backend w)), w') /\
     disk w' = disk w /\ frames (backend w') = frames (backend w)).
Proof.
  intros Eo. unfold save_stream, save_stream_setup. split.
  - intros Ec. unfold bind at 1.
    rewrite ensure_open_eq, (open_refused_eq s w Eo Ec).
    eexists. split; reflexivity.
  - intros Ec Hf Hm. unfold bind at 1.
    rewrite ensure_open_eq, (open_accepted_eq s w Eo Ec Hf).
    unfold mkdir, bind. simpl. rewrite Hm.
    eexists. split; [reflexivity|]. split; reflexivity.
Qed.

(** X11. What goes to disk is what came from the source.  If converting
    a frame to RGB and back gives the frame again, then reading a frame
    from an open session and saving it writes the frame of the backend
    itself, unchanged, whether or not the configuration asks for the
    conversion; the frame is taken from the backend and the path is
    returned. *)
Theorem saved_frame_is_backend_frame
    (s : CameraFrameCapture) (w : World) (cap : VideoCapture)
    (f : ndarray) (p : Path) :
  (forall x, cvtColor (cvtColor x COLOR_BGR2RGB) COLOR_RGB2BGR = x) ->
  _is_open s = true -> _cap s = Some cap ->
  hd None (frames (backend w)) = Some f ->
  mkdir_fails (disk w) (parent p) = false ->
  hd true (imwrite_results (disk w)) = true ->
  result (bind read (fun frame => save_frame frame (PPath p)) s w)
    = Ok (PPath p) /\
  files (disk (snd (bind read (fun frame => save_frame frame (PPath p))
                      s w)))
    = (str_of_Path p, f) :: files (disk w) /\
  frames (backend (snd (bind read (fun frame => save_frame frame (PPath p))
                          s w)))
    = tl (frames (backend w)).
Proof.
  intros Hrt Eo Ec Hf Hm Hi. unfold bind.
  rewrite (read_open_session s w Eo Ec), Hf, save_frame_on_path.
  simpl. rewrite Hm, Hi. simpl. repeat split.
  unfold encoded, decoded.
  destruct (convert_to_rgb (config s)); [now rewrite Hrt|reflexivity].
Qed.

End RecordingSession.

(** ** File names *)

Section NameProperties.

Import PyStr.

(** A number from [10^k] on has more than [k] digits. *)
Lemma digits_lsb_length_ge (fuel : nat) :
  forall (n : N) (k : nat),
    (n < 2 ^ N.of_nat fuel)%N -> (10 ^ N.of_nat k <= n)%N ->
    k + 1 <= List.length (digits_lsb fuel n).
Proof.
  induction fuel as [|fuel IH]; intros n k Hf Hk.
  - simpl in Hf. assert (n = 0%N) by lia. subst n.
    pose proof (N.pow_nonzero 10 (N.of_nat k)). lia.
  - cbn [digits_lsb]. destruct (N.ltb_spec n 10) as [Hlt|Hge].
    + destruct k as [|k]; [simpl; lia|].
      rewrite Nat2N.inj_succ, N.pow_succ_r' in Hk.
      pose proof (N.pow_nonzero 10 (N.of_nat k)). lia.
    + cbn [List.length]. destruct k as [|k]; [lia|].
      apply le_n_S. apply IH.
      * rewrite Nat2N.inj_succ, N.pow_succ_r' in Hf.
        apply N.Div0.div_lt_upper_bound. lia.
      * rewrite Nat2N.inj_succ, N.pow_succ_r' in Hk.
        apply N.div_le_lower_bound; lia.
Qed.

Lemma format_06d_length_ge (n : N) :
  (1000000 <= n)%N -> 7 <= String.length (format_06d n).
Proof.
  intros H. unfold format_06d, zfill.
  rewrite string_length_app, string_length_of_list, repeat_length.
  assert (7 <= String.length (decimal n)); [|lia].
  unfold decimal, digits.
  rewrite string_length_of_list, length_map, length_rev.
  apply digits_lsb_length_ge with (k := 6); [|exact H].
  rewrite Nat2N.inj_succ, N2Nat.id.
  destruct n as [|p]; [reflexivity|].
  apply N.log2_spec. lia.
Qed.

(** X12. The names of the saved frames.  Different values of the counter
    give different file names, so no frame of a run overwrites another;
    and the name has its fixed width, the prefix and eleven characters
    more, exactly as long as the counter is below one million: from the
    millionth frame on the number takes seven digits or more. *)
Theorem frame_names_distinct_and_fixed_width (filename_prefix : string) :
  (forall i j,
     Capture.frame_filename filename_prefix i
       = Capture.frame_filename filename_prefix j -> i = j) /\
  (forall n,
     String.length (Capture.frame_filename filename_prefix n)
       = String.length filename_prefix + 11
     <-> (n < 1000000)%N).
Proof.
  split; [intros i j; apply frame_filename_inj|].
  intros n. unfold Capture.frame_filename.
  rewrite !string_length_app. cbn [String.length].
  destruct (N.lt_ge_cases n 1000000) as [Hlt|Hge].
  - rewrite (format_06d_length Hlt). split; [auto|lia].
  - pose proof (format_06d_length_ge Hge). split; lia.
Qed.

End NameProperties.

(** ** Cleaning a directory of images *)

Section ValidatorProperties.

Import ImageValidator.

Context {F : FsLibs}.

Lemma same_oracle_refl (w : FsWorld) : same_oracle w w.
Proof. repeat split. Qed.

Lemma same_oracle_trans (w1 w2 w3 : FsWorld) :
  same_oracle w1 w2 -> same_oracle w2 w3 -> same_oracle w1 w3.
Proof.
  unfold same_oracle.
  intros (A1 & A2 & A3 & A4 & A5) (B1 & B2 & B3 & B4 & B5).
  repeat split; congruence.
Qed.

Lemma filter_filter_andb (A : Type) (f g : A -> bool) (l : list A) :
  filter f (filter g l) = filter (fun x => g x && f x) l.
Proof.
  induction l as [|a l IH]; [reflexivity|].
  simpl. destruct (g a); simpl; [destruct (f a)|]; now rewrite IH.
Qed.

Lemma is_corrupted_present (p : FPath) (w : FsWorld) :
  present p w = true -> is_corrupted p w = verifies w p.
Proof. intros H. unfold is_corrupted. rewrite H. apply andb_true_r. Qed.

Lemma find_image_files_In (self : ImageValidator) (dir : FPath)
    (w : FsWorld) (p : FPath) :
  In p (find_image_files self dir w) ->
  In p (rglob w dir) /\ present p w = true /\ is_file w p = true /\
  In (lower (suffix p)) (extensions self).
Proof.
  unfold find_image_files. intros H.
  apply filter_In in H. destruct H as [H1 H2].
  apply filter_In in H1. destruct H1 as [H1 H3].
  apply andb_true_iff in H2. destruct H2 as [H2 H4].
  apply andb_true_iff in H2. destruct H2 as [H2 _].
  apply existsb_exists in H4. destruct H4 as (e & He & Heq).
  apply String.eqb_eq in Heq. subst e. auto.
Qed.

Lemma failing_find (self : ImageValidator) (dir : FPath) (w : FsWorld) :
  filter (fun p => negb (is_corrupted p w)) (find_image_files self dir w)
  = failing w (find_image_files self dir w).
Proof.
  apply filter_ext_in. intros p Hp.
  apply find_image_files_In in Hp.
  now rewrite is_corrupted_present.
Qed.

(** *** The loop of a dry run *)

Lemma dry_loop (verbose : bool) :
  forall (image_files acc : list FPath) (w : FsWorld),
    exists w',
      cleanup_loop verbose true image_files acc w
        = (TOk (acc ++ filter (fun p => negb (is_corrupted p w)) image_files), w')
      /\ same_oracle w w' /\ removed w' = removed w
      /\ stdout w'
         = (if verbose
            then rev (map (Action true)
                        (filter (fun p => negb (is_corrupted p w)) image_files))
            else []) ++ stdout w.
Proof.
  induction image_files as [|a image_files IH]; intros acc w.
  - exists w. simpl. rewrite app_nil_r.
    repeat split. now destruct verbose.
  - simpl. destruct (is_corrupted a w) eqn:Ha; simpl.
    + apply IH.
    + set (w2 := if verbose then print (Action true a) w else w).
      assert (Ho : same_oracle w w2)
        by (subst w2; destruct verbose; repeat split).
      assert (Hr : removed w2 = removed w)
        by (subst w2; now destruct verbose).
      assert (Hf : filter (fun p => negb (is_corrupted p w2)) image_files
                   = filter (fun p => negb (is_corrupted p w)) image_files).
      { apply filter_ext. intros p. unfold is_corrupted, present.
        rewrite Hr. destruct Ho as (_ & _ & _ & Hv & _). now rewrite Hv. }
      destruct (IH (acc ++ [a]) w2) as (w' & E & Ho' & Hr' & Hs).
      exists w'. rewrite E, Hf, <- app_assoc. simpl.
      split; [reflexivity|].
      split; [eapply same_oracle_trans; eassumption|].
      split; [congruence|].
      rewrite Hs, Hf. subst w2. destruct verbose; [|reflexivity].
      simpl. now rewrite <- app_assoc.
Qed.

Lemma dry_run_eq (self : ImageValidator) (dir : FPath) (verbose : bool)
    (w : FsWorld) :
  dir_exists w dir = true ->
  exists w',
    cleanup_corrupted_images self dir verbose true w
      = (TOk (report (find_image_files self dir w)
                (failing w (find_image_files self dir w))), w')
    /\ same_oracle w w' /\ removed w' = removed w
    /\ stdout w'
       = (if verbose
          then rev (Found (List.length (find_image_files self dir w))
                    :: map (Action true)
                         (failing w (find_image_files self dir w)))
          else []) ++ stdout w.
Proof.
  intros Hd. unfold cleanup_corrupted_images. rewrite Hd. simpl.
  set (fs := find_image_files self dir w).
  set (w1 := if verbose then print (Found (List.length fs)) w else w).
  assert (Ho : same_oracle w w1)
    by (subst w1; destruct verbose; repeat split).
  assert (Hr : removed w1 = removed w)
    by (subst w1; now destruct verbose).
  assert (Hf : filter (fun p => negb (is_corrupted p w1)) fs
               = failing w fs).
  { unfold fs. rewrite <- failing_find. apply filter_ext. intros p.
    unfold is_corrupted, present. rewrite Hr.
    destruct Ho as (_ & _ & _ & Hv & _). now rewrite Hv. }
  destruct (dry_loop verbose fs [] w1) as (w' & E & Ho' & Hr' & Hs).
  exists w'. rewrite E, Hf. simpl.
  split; [reflexivity|].
  split; [eapply same_oracle_trans; eassumption|].
  split; [congruence|].
  rewrite Hs, Hf. subst w1. destruct verbose; [|reflexivity].
  simpl. now rewrite <- app_assoc.
Qed.

(** *** The loop of a run that removes *)

Section Listing.

Hypothesis FPath_eqb_eq : forall a b : FPath, FPath_eqb a b = true <-> a = b.

Lemma mem_In (p : FPath) (l : list FPath) : mem p l = true <-> In p l.
Proof.
  unfold mem. rewrite existsb_exists. split.
  - intros (x & Hx & E). apply FPath_eqb_eq in E. now subst.
  - intros H. exists p. split; [exact H|]. now apply FPath_eqb_eq.
Qed.

Lemma present_iff (p : FPath) (w : FsWorld) :
  present p w = true <-> ~ In p (removed w).
Proof.
  unfold present. rewrite negb_true_iff, <- mem_In.
  destruct (mem p (removed w)); split; intros H; congruence.
Qed.

Lemma find_image_files_NoDup (self : ImageValidator) (dir : FPath)
    (w : FsWorld) :
  NoDup (rglob w dir) -> NoDup (find_image_files self dir w).
Proof. intros H. unfold find_image_files. now do 2 apply NoDup_filter. Qed.

Lemma real_loop (verbose : bool) :
  forall (image_files acc : list FPath) (w : FsWorld) r w',
    NoDup image_files ->
    (forall p, In p image_files -> present p w = true) ->
    cleanup_loop verbose false image_files acc w = (r, w') ->
    same_oracle w w' /\
    match r with
    | TOk out =>
        out = acc ++ failing w image_files /\
        removed w' = rev (failing w image_files) ++ removed w
    | TRaise e =>
        e = Builtin OSError /\
        exists p, In p (failing w image_files) /\ remove_fails w p = true
    end.
Proof.
  induction image_files as [|a image_files IH]; intros acc w r w' Hnd Hp H.
  - simpl in H. injection H as <- <-.
    split; [apply same_oracle_refl|]. simpl. now rewrite app_nil_r.
  - inversion Hnd as [|? ? Hna Hnd']; subst.
    simpl in H. rewrite is_corrupted_present in H
      by (apply Hp; now left).
    unfold failing. simpl.
    destruct (verifies w a) eqn:Hv; simpl in *.
    + apply (IH acc w r w' Hnd'); [|exact H].
      intros p Hin. apply Hp. now right.
    + unfold os_remove in H.
      rewrite (Hp a (or_introl eq_refl)) in H. simpl in H.
      destruct (remove_fails w a) eqn:Hrf.
      * injection H as <- <-.
        split; [apply same_oracle_refl|].
        split; [reflexivity|]. exists a. split; [now left|exact Hrf].
      * match type of H with
        | cleanup_loop _ _ _ _ ?x = _ => set (w2 := x) in H
        end.
        assert (Ho : same_oracle w w2)
          by (subst w2; destruct verbose; repeat split).
        assert (Hr : removed w2 = a :: removed w)
          by (subst w2; now destruct verbose).
        assert (Hp2 : forall p, In p image_files -> present p w2 = true).
        { intros p Hin. apply present_iff. rewrite Hr.
          intros [->|Hin']; [contradiction|].
          specialize (Hp p (or_intror Hin)).
          apply present_iff in Hp. contradiction. }
        destruct (IH (acc ++ [a]) w2 r w' Hnd' Hp2 H) as [Ho' Hres].
        split; [eapply same_oracle_trans; eassumption|].
        assert (Hf : failing w2 image_files = failing w image_files).
        { unfold failing. destruct Ho as (_ & _ & _ & Hv' & _).
          now rewrite Hv'. }
        assert (Hrm : remove_fails w2 = remove_fails w)
          by (destruct Ho as (_ & _ & _ & _ & Hx); exact Hx).
        rewrite Hf, Hr in Hres. unfold failing in Hres.
        destruct r as [out|e].
        -- destruct Hres as [-> ->]. rewrite <- !app_assoc. now simpl.
        -- destruct Hres as [-> (p & Hin & Hfl)].
           split; [reflexivity|]. exists p.
           split; [now right|]. now rewrite <- Hrm.
Qed.

Lemma real_run (self : ImageValidator) (dir : FPath) (verbose : bool)
    (w : FsWorld) r w' :
  NoDup (rglob w dir) ->
  dir_exists w dir = true ->
  cleanup_corrupted_images self dir verbose false w = (r, w') ->
  same_oracle w w' /\
  match r with
  | TOk d =>
      d = report (find_image_files self dir w)
            (failing w (find_image_files self dir w)) /\
      removed w' = rev (failing w (find_image_files self dir w))
                     ++ removed w
  | TRaise e =>
      e = Builtin OSError /\
      exists p, In p (failing w (find_image_files self dir w)) /\
                remove_fails w p = true
  end.
Proof.
  intros Hnd Hd H. unfold cleanup_corrupted_images in H.
  rewrite Hd in H. simpl in H.
  set (fs := find_image_files self dir w) in *.
  match type of H with
  | context [cleanup_loop _ _ _ _ ?x] => set (w1 := x) in H
  end.
  assert (Ho : same_oracle w w1)
    by (subst w1; destruct verbose; repeat split).
  assert (Hr : removed w1 = removed w)
    by (subst w1; now destruct verbose).
  assert (Hp : forall p, In p fs -> present p w1 = true).
  { intros p Hin. apply find_image_files_In in Hin.
    unfold present. rewrite Hr. apply Hin. }
  assert (Hf : failing w1 fs = failing w fs).
  { unfold failing. destruct Ho as (_ & _ & _ & Hv & _). now rewrite Hv. }
  assert (Hrm : remove_fails w1 = remove_fails w)
    by (destruct Ho as (_ & _ & _ & _ & Hx); exact Hx).
  destruct (cleanup_loop verbose false fs [] w1) as [r1 w2] eqn:E.
  apply real_loop in E;
    [|now apply find_image_files_NoDup|exact Hp].
  destruct E as [Ho' Hres]. rewrite Hf, Hr, Hrm in Hres.
  destruct r1 as [out|e]; injection H as <- <-;
    (split; [eapply same_oracle_trans; eassumption|]).
  - destruct Hres as [-> ->]. split; reflexivity.
  - exact Hres.
Qed.

(** X13. A dry run removes nothing, and reports the image files under the
    directory that do not verify: their number, their list in the order
    of the listing, and the number of image files looked at; with
    [verbose] it prints one line for the count and one per reported
    file. *)
Theorem dry_run_reports_without_removing (self : ImageValidator)
    (dir : FPath) (verbose : bool) (w : FsWorld) :
  dir_exists w dir = true ->
  exists w',
    cleanup_corrupted_images self dir verbose true w
      = (TOk (report (find_image_files self dir w)
                (failing w (find_image_files self dir w))), w')
    /\ removed w' = removed w
    /\ stdout w'
       = (if verbose
          then rev (Found (List.length (find_image_files self dir w))
                    :: map (Action true)
                         (failing w (find_image_files self dir w)))
          else []) ++ stdout w.
Proof.
  intros Hd. destruct (@dry_run_eq self dir verbose w Hd)
    as (w' & E & _ & Hr & Hs).
  exists w'. auto.
Qed.

(** X14. A run that removes, on a listing without repetition and with no
    removal failing, returns the report of the dry run on the same
    directory and removes exactly the files of that report, in its
    order. *)
Theorem cleanup_removes_what_dry_run_reports (self : ImageValidator)
    (dir : FPath) (verbose : bool) (w : FsWorld) :
  NoDup (rglob w dir) ->
  dir_exists w dir = true ->
  (forall p, In p (failing w (find_image_files self dir w)) ->
             remove_fails w p = false) ->
  exists w',
    cleanup_corrupted_images self dir verbose false w
      = (fst (cleanup_corrupted_images self dir verbose true w), w')
    /\ fst (cleanup_corrupted_images self dir verbose true w)
       = TOk (report (find_image_files self dir w)
                (failing w (find_image_files self dir w)))
    /\ removed w'
       = rev (failing w (find_image_files self dir w)) ++ removed w.
Proof.
  intros Hnd Hd Hok.
  destruct (@dry_run_eq self dir verbose w Hd) as (wd & Ed & _).
  rewrite Ed. simpl.
  destruct (cleanup_corrupted_images self dir verbose false w)
    as [r w'] eqn:E.
  destruct (@real_run self dir verbose w _ _ Hnd Hd E) as [_ Hres].
  exists w'. destruct r as [d|e].
  - destruct Hres as [-> ->]. auto.
  - destruct Hres as [_ (p & Hin & Hfl)].
    rewrite (Hok p Hin) in Hfl. discriminate.
Qed.

(** X15. On a listing without repetition, after a cleanup that removed and
    returned, a second cleanup of the same directory, dry or not, finds
    only the image files that verify, removes nothing and reports no
    file. *)
Theorem cleanup_twice_removes_nothing_more (self : ImageValidator)
    (dir : FPath) (verbose verbose' dry_run : bool) (w : FsWorld)
    d w' :
  NoDup (rglob w dir) ->
  cleanup_corrupted_images self dir verbose false w = (TOk d, w') ->
  exists w'',
    cleanup_corrupted_images self dir verbose' dry_run w'
      = (TOk (report (filter (verifies w) (find_image_files self dir w))
                []), w'')
    /\ removed w'' = removed w'.
Proof.
  intros Hnd H.
  assert (Hd : dir_exists w dir = true).
  { unfold cleanup_corrupted_images in H.
    destruct (dir_exists w dir); [reflexivity|discriminate]. }
  destruct (@real_run self dir verbose w _ _ Hnd Hd H) as [Ho [_ Hr]].
  destruct Ho as (Hde & Hrg & Hif & Hv & Hrf).
  assert (Hfs : find_image_files self dir w'
                = filter (verifies w) (find_image_files self dir w)).
  { unfold find_image_files. rewrite !filter_filter_andb, Hrg, Hif.
    apply filter_ext_in. intros p Hp.
    set (ext := existsb _ (extensions self)).
    destruct (present p w') eqn:Hp'.
    - assert (Hpw : present p w = true).
      { apply present_iff. apply present_iff in Hp'.
        intros Hin. apply Hp'. rewrite Hr. apply in_or_app. now right. }
      rewrite Hpw. simpl. rewrite !andb_true_r.
      destruct (is_file w p && ext) eqn:Hc; [|reflexivity]. simpl.
      destruct (verifies w p) eqn:Hvp; [reflexivity|].
      exfalso. apply present_iff in Hp'. apply Hp'.
      rewrite Hr. apply in_or_app. left. apply in_rev. rewrite rev_involutive.
      unfold failing. apply filter_In. rewrite Hvp.
      split; [|reflexivity].
      unfold find_image_files. rewrite filter_filter_andb.
      apply filter_In. split; [exact Hp|].
      rewrite Hpw. simpl. rewrite andb_true_r. exact Hc.
    - simpl.
      destruct (present p w) eqn:Hpw; [|reflexivity]. simpl.
      rewrite andb_true_r.
      destruct (is_file w p && ext) eqn:Hc; [|reflexivity]. simpl.
      destruct (verifies w p) eqn:Hvp; [|reflexivity].
      exfalso.
      assert (Hin : In p (removed w')).
      { apply mem_In. unfold present in Hp'.
        now apply negb_false_iff in Hp'. }
      rewrite Hr in Hin. apply in_app_or in Hin. destruct Hin as [Hin|Hin].
      + apply in_rev in Hin. unfold failing in Hin.
        apply filter_In in Hin. destruct Hin as [_ Hx].
        rewrite Hvp in Hx. discriminate.
      + apply present_iff in Hpw. contradiction. }
  assert (Hall : forall p, In p (find_image_files self dir w') ->
                           is_corrupted p w' = true).
  { intros p Hin. pose proof Hin as Hin'.
    apply find_image_files_In in Hin'.
    rewrite is_corrupted_present by apply Hin'.
    rewrite Hfs in Hin. apply filter_In in Hin. rewrite Hv. apply Hin. }
  assert (Hloop : forall v image_files acc w0,
             (forall p, In p image_files -> is_corrupted p w0 = true) ->
             cleanup_loop v dry_run image_files acc w0 = (TOk acc, w0)).
  { intros v. induction image_files as [|a image_files IH]; intros acc w0 Hc;
      [reflexivity|].
    simpl. rewrite (Hc a (or_introl eq_refl)). simpl.
    apply IH. intros p Hin. apply Hc. now right. }
  unfold cleanup_corrupted_images. rewrite Hde, Hd. simpl.
  rewrite Hloop.
  - rewrite Hfs. eexists. split; [reflexivity|]. now destruct verbose'.
  - intros p Hin. specialize (Hall p Hin).
    unfold is_corrupted, present in *. now destruct verbose'.
Qed.

(** X16. The cleanup raises [FileNotFoundError] exactly when the directory
    does not exist, and then it has changed and printed nothing; on a
    listing without repetition no removal of the loop raises it. *)
Theorem cleanup_FileNotFoundError_iff_missing (self : ImageValidator)
    (dir : FPath) (verbose dry_run : bool) (w : FsWorld) :
  NoDup (rglob w dir) ->
  (fst (cleanup_corrupted_images self dir verbose dry_run w)
     = TRaise FileNotFoundError
   <-> dir_exists w dir = false) /\
  (dir_exists w dir = false ->
   snd (cleanup_corrupted_images self dir verbose dry_run w) = w).
Proof.
  intros Hnd. split.
  - destruct (dir_exists w dir) eqn:Hd.
    + split; [|discriminate]. intros H. exfalso.
      destruct dry_run.
      * destruct (@dry_run_eq self dir verbose w Hd) as (w' & E & _).
        rewrite E in H. discriminate.
      * destruct (cleanup_corrupted_images self dir verbose false w)
          as [r w'] eqn:E.
        destruct (@real_run self dir verbose w _ _ Hnd Hd E) as [_ Hres].
        simpl in H. subst r. destruct Hres as [Hx _]. discriminate.
    + unfold cleanup_corrupted_images. rewrite Hd. simpl. tauto.
  - intros Hd. unfold cleanup_corrupted_images. now rewrite Hd.
Qed.

End Listing.

(** *** What a cleanup can remove *)

Lemma loop_removes_only_failing (verbose dry_run : bool) :
  forall (image_files acc : list FPath) (w : FsWorld) r w',
    cleanup_loop verbose dry_run image_files acc w = (r, w') ->
    same_oracle w w' /\
    forall p, In p (removed w') ->
      In p (removed w) \/
      (dry_run = false /\ In p image_files /\ verifies w p = false).
Proof.
  induction image_files as [|a image_files IH]; intros acc w r w' H.
  - simpl in H. injection H as <- <-.
    split; [apply same_oracle_refl|]. auto.
  - simpl in H. destruct (is_corrupted a w) eqn:Hc; simpl in H.
    + apply IH in H. destruct H as [Ho Hin].
      split; [exact Ho|]. intros p Hp.
      destruct (Hin p Hp) as [?|(? & ? & ?)]; [now left|].
      right. repeat split; auto. now right.
    + destruct dry_run; simpl in H.
      * match type of H with
        | cleanup_loop _ _ _ _ ?x = _ => set (w2 := x) in H
        end.
        assert (Ho : same_oracle w w2)
          by (subst w2; destruct verbose; repeat split).
        assert (Hr : removed w2 = removed w)
          by (subst w2; now destruct verbose).
        apply IH in H. destruct H as [Ho' Hin].
        split; [eapply same_oracle_trans; eassumption|].
        intros p Hp. rewrite Hr in Hin.
        destruct (Hin p Hp) as [?|(? & _)]; [now left|discriminate].
      * unfold os_remove in H.
        destruct (present a w) eqn:Hpa; simpl in H;
          [|injection H as <- <-;
            split; [apply same_oracle_refl|auto]].
        destruct (remove_fails w a);
          [injection H as <- <-;
            split; [apply same_oracle_refl|auto]|].
        match type of H with
        | cleanup_loop _ _ _ _ ?x = _ => set (w2 := x) in H
        end.
        assert (Ho : same_oracle w w2)
          by (subst w2; destruct verbose; repeat split).
        assert (Hr : removed w2 = a :: removed w)
          by (subst w2; now destruct verbose).
        apply IH in H. destruct H as [Ho' Hin].
        split; [eapply same_oracle_trans; eassumption|].
        intros p Hp. rewrite Hr in Hin.
        destruct Ho as (_ & _ & _ & Hv & _). rewrite Hv in Hin.
        destruct (Hin p Hp) as [[<-|?]|(? & ? & ?)].
        -- right. repeat split; [now left|].
           unfold is_corrupted in Hc. rewrite Hpa in Hc.
           now rewrite andb_true_r in Hc.
        -- now left.
        -- right. repeat split; auto. now right.
Qed.

(** X17. What a cleanup can remove, whatever its outcome: only in a run
    that is not dry, only files of the listing of the directory, that
    are regular files, whose lower-cased suffix is one of the
    extensions, and that do not verify. *)
Theorem cleanup_removes_only_failing_images (self : ImageValidator)
    (dir : FPath) (verbose dry_run : bool) (w : FsWorld) (p : FPath) :
  In p (removed
          (snd (cleanup_corrupted_images self dir verbose dry_run w))) ->
  In p (removed w) \/
  (dry_run = false /\ In p (rglob w dir) /\ is_file w p = true /\
   In (lower (suffix p)) (extensions self) /\ verifies w p = false).
Proof.
  unfold cleanup_corrupted_images.
  destruct (dir_exists w dir); simpl; [|auto].
  set (fs := find_image_files self dir w).
  set (w1 := if verbose then print (Found (List.length fs)) w else w).
  assert (Hr : removed w1 = removed w)
    by (subst w1; now destruct verbose).
  assert (Hv : verifies w1 = verifies w)
    by (subst w1; now destruct verbose).
  destruct (cleanup_loop verbose dry_run fs [] w1) as [r w'] eqn:E.
  apply loop_removes_only_failing in E. destruct E as [_ Hin].
  intros Hp.
  assert (Hp' : In p (removed w')) by (destruct r; exact Hp).
  rewrite Hr, Hv in Hin.
  destruct (Hin p Hp') as [?|(? & Hfs & ?)]; [now left|].
  right. apply find_image_files_In in Hfs. tauto.
Qed.

End ValidatorProperties.

(** ** Removing duplicates *)

Section DedupProperties.

Import Deduplicator.

Context {D : DLibs}.

Lemma set_add_In (s : list string) (y x : string) :
  In x (set_add s y) <-> In x s \/ x = y.
Proof.
  unfold set_add. destruct (existsb (String.eqb y) s) eqn:E.
  - apply existsb_exists in E. destruct E as (z & Hz & Hyz).
    apply String.eqb_eq in Hyz. subst z.
    split; [auto|]. intros [H| ->]; assumption.
  - rewrite in_app_iff. simpl. intuition congruence.
Qed.

Lemma set_add_NoDup (s : list string) (y : string) :
  NoDup s -> NoDup (set_add s y).
Proof.
  intros H. unfold set_add.
  destruct (existsb (String.eqb y) s) eqn:E; [exact H|].
  apply NoDup_rev in H. rewrite <- (rev_involutive (s ++ [y])).
  apply NoDup_rev. rewrite rev_app_distr. simpl.
  constructor; [|exact H].
  intros Hin. apply in_rev in Hin.
  assert (Ht : existsb (String.eqb y) s = true).
  { apply existsb_exists. exists y. split; [exact Hin|].
    apply String.eqb_refl. }
  congruence.
Qed.

Lemma set_update_In (l s : list string) (x : string) :
  In x (set_update s l) <-> In x s \/ In x l.
Proof.
  unfold set_update. revert s.
  induction l as [|y l IH]; intros s; simpl; [tauto|].
  rewrite IH, set_add_In. intuition congruence.
Qed.

Lemma set_update_NoDup (l s : list string) :
  NoDup s -> NoDup (set_update s l).
Proof.
  unfold set_update. revert s.
  induction l as [|y l IH]; intros s H; simpl; [exact H|].
  apply IH. now apply set_add_NoDup.
Qed.

Lemma chars_length (k c : string) :
  In c (chars k) -> String.length c = 1.
Proof.
  unfold chars. intros H. apply in_map_iff in H.
  destruct H as (a & <- & _). reflexivity.
Qed.

Lemma find_loop_spec (m : DupMap) :
  forall f0 d0 : list string,
    let fd := find_loop m f0 d0 in
    (forall x, In x (snd fd)
               <-> In x d0 \/ exists k l, In (k, l) m /\ In x l) /\
    (NoDup d0 -> NoDup (snd fd)) /\
    (forall c, In c (fst fd) ->
               In c f0 \/
               exists k l, In (k, l) m /\ l <> [] /\ In c (chars k)).
Proof.
  induction m as [|[k l] m IH]; intros f0 d0; simpl.
  - split; [|split; auto]. intros x. split; [auto|].
    intros [H|(? & ? & [] & _)]. exact H.
  - destruct l as [|y l]; simpl.
    + destruct (IH f0 d0) as (A & B & C).
      split; [|split; [exact B|]].
      * intros x. rewrite A. split.
        -- intros [H|(k' & l' & H1 & H2)]; [now left|].
           right. exists k', l'. auto.
        -- intros [H|(k' & l' & [H1|H1] & H2)]; [now left| |].
           ++ injection H1 as <- <-. destruct H2.
           ++ right. exists k', l'. auto.
      * intros c Hc. destruct (C c Hc) as [H|(k' & l' & H1 & H2)];
          [now left|].
        right. exists k', l'. tauto.
    + destruct (IH (set_update f0 (chars k)) (set_update d0 (y :: l)))
        as (A & B & C).
      split; [|split].
      * intros x. rewrite A, set_update_In. split.
        -- intros [[H|H]|(k' & l' & H1 & H2)]; [now left| |].
           ++ right. exists k, (y :: l). auto.
           ++ right. exists k', l'. auto.
        -- intros [H|(k' & l' & [H1|H1] & H2)]; [now left; left| |].
           ++ injection H1 as <- <-. left. now right.
           ++ right. exists k', l'. auto.
      * intros H. apply B. now apply set_update_NoDup.
      * intros c Hc. destruct (C c Hc) as [H|(k' & l' & H1 & H2)].
        -- apply set_update_In in H. destruct H as [H|H]; [now left|].
           right. exists k, (y :: l).
           split; [now left|]. split; [discriminate|exact H].
        -- right. exists k', l'. tauto.
Qed.

(** X18. What [find_duplicates] leaves in the deduplicator when the search
    answers: the map, the directory as a string, in [duplicates] exactly
    the names listed as a duplicate of some file, each once, and in
    [files_with_duplicates] only strings of one character, each a
    character of the name of a file that has duplicates. *)
Theorem find_duplicates_collects (self : ImageDeduplicator)
    (dir : PathLike) (thr : PyFloat.float) (w : DWorld) (m : DupMap) :
  cnn_find_duplicates w (unlinked w) dir thr = TOk m ->
  exists self' w',
    find_duplicates self dir thr w = (TOk m, self', w') /\
    duplicates_map self' = Some m /\
    image_dir self' = Some (str_of dir) /\
    (exists dups,
       duplicates self' = Some dups /\ NoDup dups /\
       forall f, In f dups <-> exists k l, In (k, l) m /\ In f l) /\
    (exists cs,
       files_with_duplicates self' = Some cs /\
       forall c, In c cs ->
         String.length c = 1 /\
         exists k l, In (k, l) m /\ l <> [] /\ In c (chars k)).
Proof.
  intros Hc. unfold find_duplicates. rewrite Hc.
  pose proof (find_loop_spec m [] []) as S. simpl in S.
  destruct (find_loop m [] []) as [fwd dups]. simpl in S.
  destruct S as (A & B & C).
  eexists. eexists. split; [reflexivity|]. simpl.
  split; [reflexivity|]. split; [reflexivity|]. split.
  - exists dups. split; [reflexivity|]. split; [apply B; constructor|].
    intros f. rewrite A. split; [intros [[]|H]; exact H|auto].
  - exists fwd. split; [reflexivity|]. intros c Hin.
    destruct (C c Hin) as [[]|(k & l & H1 & H2 & H3)].
    split; [eapply chars_length; eassumption|].
    exists k, l. auto.
Qed.

(** *** The loop of [delete_duplicates] *)

Lemma unlink_log (p : DPath) (w : DWorld) r w' :
  unlink p w = (r, w') ->
  cnn_calls w' = cnn_calls w /\
  cnn_find_duplicates w' = cnn_find_duplicates w /\
  match r with
  | TOk _ => unlinked w' = p :: unlinked w
  | TRaise _ => w' = w
  end.
Proof.
  unfold unlink.
  destruct (existsb (DPath_eqb p) (unlinked w));
    [intros H; injection H as <- <-; auto|].
  destruct (unlink_error w p); intros H; injection H as <- <-; auto.
Qed.

Lemma delete_loop_log (dir : DPath) (labels : option DPath)
    (dry_run : bool) :
  forall (dups acc : list string) (w : DWorld) r w',
    delete_loop dir labels dry_run dups acc w = (r, w') ->
    cnn_calls w' = cnn_calls w /\
    incl (unlinked w) (unlinked w') /\
    (dry_run = true -> w' = w) /\
    (dry_run = false ->
     forall l, r = TOk l ->
       forall f, In f dups -> In (joinpath_name dir f) (unlinked w')).
Proof.
  induction dups as [|f dups IH]; intros acc w r w' H; simpl in H.
  - injection H as <- <-. split; [reflexivity|].
    split; [apply incl_refl|]. split; [reflexivity|].
    intros _ l _ f [].
  - destruct dry_run; simpl in H.
    + destruct labels as [ld|].
      * destruct (with_suffix (Path_of_name f) ".txt") as [name|e].
        -- apply IH in H. destruct H as (A & B & C & _).
           repeat split; auto. discriminate.
        -- injection H as <- <-. split; [reflexivity|].
           split; [apply incl_refl|]. split; [reflexivity|discriminate].
      * apply IH in H. destruct H as (A & B & C & _).
        repeat split; auto. discriminate.
    + destruct (unlink (joinpath_name dir f) w) as [[[]|e] w1] eqn:U;
        apply unlink_log in U; destruct U as (U1 & U2 & U3).
      2:{ injection H as <- <-. subst w1. split; [reflexivity|].
          split; [apply incl_refl|]. split; [discriminate|].
          intros _ l Hl. discriminate. }
      assert (Hstep : forall acc' w2 r w',
                delete_loop dir labels false dups acc' w2 = (r, w') ->
                cnn_calls w2 = cnn_calls w ->
                incl (unlinked w1) (unlinked w2) ->
                cnn_calls w' = cnn_calls w /\
                incl (unlinked w) (unlinked w') /\
                (false = true -> w' = w) /\
                (false = false ->
                 forall l, r = TOk l ->
                   forall f0, In f0 (f :: dups) ->
                     In (joinpath_name dir f0) (unlinked w'))).
      { intros acc' w2 r0 w0 H0 Hc Hi.
        apply IH in H0. destruct H0 as (A & B & _ & E).
        split; [congruence|].
        assert (Hw : incl (unlinked w1) (unlinked w0))
          by (eapply incl_tran; eassumption).
        split; [intros x Hx; apply Hw; rewrite U3; now right|].
        split; [discriminate|].
        intros _ l Hl f0 [<-|Hin]; [|eapply E; eauto].
        apply Hw. rewrite U3. now left. }
      destruct labels as [ld|].
      * destruct (with_suffix (Path_of_name f) ".txt") as [name|e].
        -- destruct (unlink (joinpath ld name) w1) as [[[]|e] w2] eqn:U';
             apply unlink_log in U'; destruct U' as (V1 & V2 & V3).
           ++ eapply Hstep; [exact H|congruence|].
              rewrite V3. intros x Hx. now right.
           ++ injection H as <- <-. subst w2. split; [congruence|].
              split; [intros x Hx; rewrite U3; now right|].
              split; [discriminate|]. intros _ l Hl. discriminate.
        -- injection H as <- <-. split; [congruence|].
           split; [intros x Hx; rewrite U3; now right|].
           split; [discriminate|]. intros _ l Hl. discriminate.
      * eapply Hstep; [exact H|congruence|apply incl_refl].
Qed.

Lemma delete_loop_list (dir : DPath) (dry_run : bool) :
  forall (dups acc : list string) (w : DWorld) l w',
    delete_loop dir None dry_run dups acc w = (TOk l, w') ->
    l = acc ++ map (fun f => str_of_DPath (joinpath_name dir f)) dups.
Proof.
  induction dups as [|f dups IH]; intros acc w l w' H; simpl in H.
  - injection H as <- <-. now rewrite app_nil_r.
  - destruct (if negb dry_run then unlink (joinpath_name dir f) w
              else (TOk tt, w)) as [[[]|e] w1]; [|discriminate].
    apply IH in H. rewrite H, <- app_assoc. reflexivity.
Qed.

Lemma delete_loop_dry (dir : DPath) (labels : option DPath) :
  forall (dups acc : list string) (w : DWorld) l w',
    delete_loop dir labels true dups acc w = (TOk l, w') ->
    List.length l
    = (List.length acc
       + List.length dups * match labels with Some _ => 2 | None => 1 end)%nat.
Proof.
  induction dups as [|f dups IH]; intros acc w l w' H; simpl in H.
  - injection H as <- <-. simpl. lia.
  - destruct labels as [ld|].
    + destruct (with_suffix (Path_of_name f) ".txt") as [name|e];
        [|discriminate].
      apply IH in H. rewrite H, !length_app. simpl. lia.
    + apply IH in H. rewrite H, !length_app. simpl. lia.
Qed.

Lemma delete_dry_none (dir : DPath) :
  forall (dups acc : list string) (w : DWorld),
    delete_loop dir None true dups acc w
    = (TOk (acc ++ map (fun f => str_of_DPath (joinpath_name dir f)) dups),
       w).
Proof.
  induction dups as [|f dups IH]; intros acc w; simpl.
  - now rewrite app_nil_r.
  - rewrite IH, <- app_assoc. reflexivity.
Qed.

(** X19. With a symmetric map of duplicates, a deletion that returns has
    unlinked every image that has a duplicate: of a group of copies no
    file is kept. *)
Theorem delete_duplicates_keeps_no_copy (dir : PathLike)
    (labels : option PathLike) (thr : PyFloat.float) (w : DWorld)
    (m : DupMap) l self' w' :
  symmetric m ->
  cnn_find_duplicates w (unlinked w) dir thr = TOk m ->
  delete_duplicates init dir labels thr false w = (TOk l, self', w') ->
  forall k dups, In (k, dups) m -> dups <> [] ->
    In (joinpath_name (Path_of dir) k) (unlinked w').
Proof.
  intros Hsym Hc H k dups Hk Hne.
  unfold delete_duplicates in H. simpl in H.
  unfold find_duplicates in H. rewrite Hc in H.
  pose proof (find_loop_spec m [] []) as S. simpl in S.
  destruct (find_loop m [] []) as [fwd ds]. simpl in S, H.
  destruct S as (A & _ & _).
  match type of H with
  | context [delete_loop ?d ?lb _ _ _ ?w1] =>
      destruct (delete_loop d lb false ds [] w1) as [[l1|e] w2] eqn:E
  end; [|discriminate].
  injection H as <- <- <-.
  apply delete_loop_log in E. destruct E as (_ & _ & _ & E).
  apply (E eq_refl l1 eq_refl).
  apply A. right.
  destruct dups as [|f dups]; [congruence|].
  destruct (Hsym k (f :: dups) f Hk (or_introl eq_refl)) as (l' & H1 & H2).
  exists f, l'. auto.
Qed.

(** X20. A dry run on a fresh deduplicator searches once, unlinks nothing
    and returns one path per duplicate; the deletion that follows does
    not search again, whatever its directory and threshold: it takes the
    names found by the dry run and unlinks them under its own
    directory. *)
Theorem dry_run_fixes_later_deletion (dir1 dir2 : PathLike)
    (thr1 thr2 : PyFloat.float) (w : DWorld) (m : DupMap) :
  cnn_find_duplicates w (unlinked w) dir1 thr1 = TOk m ->
  exists dups self1 w1,
    delete_duplicates init dir1 None thr1 true w
      = (TOk (map (fun f => str_of_DPath (joinpath_name (Path_of dir1) f))
                dups), self1, w1) /\
    unlinked w1 = unlinked w /\
    cnn_calls w1 = (dir1, thr1) :: cnn_calls w /\
    (forall f, In f dups <-> exists k l, In (k, l) m /\ In f l) /\
    forall r self2 w2,
      delete_duplicates self1 dir2 None thr2 false w1 = (r, self2, w2) ->
      cnn_calls w2 = cnn_calls w1 /\
      forall l, r = TOk l ->
        l = map (fun f => str_of_DPath (joinpath_name (Path_of dir2) f))
              dups /\
        forall f, In f dups ->
          In (joinpath_name (Path_of dir2) f) (unlinked w2).
Proof.
  intros Hc.
  pose proof (find_loop_spec m [] []) as S. simpl in S.
  unfold delete_duplicates at 1. simpl.
  unfold find_duplicates. rewrite Hc.
  destruct (find_loop m [] []) as [fwd ds]. simpl in S |- *.
  destruct S as (A & _ & _).
  rewrite delete_dry_none. simpl.
  eexists ds, _, _. split; [reflexivity|]. simpl.
  split; [reflexivity|]. split; [reflexivity|].
  split; [intros f; rewrite A; split; [intros [[]|H]; exact H|auto]|].
  intros r self2 w2 H. unfold delete_duplicates in H. simpl in H.
  match type of H with
  | context [delete_loop ?d ?lb _ _ _ ?w1] =>
      destruct (delete_loop d lb false ds [] w1) as [r1 w3] eqn:E
  end.
  pose proof (delete_loop_log _ _ _ _ _ _ E) as (L1 & _ & _ & L4).
  destruct r1 as [l1|e]; injection H as <- <- <-;
    (split; [exact L1|]); intros l Hl; [|discriminate].
  injection Hl as <-. split.
  - apply delete_loop_list in E. exact E.
  - apply (L4 eq_refl l1 eq_refl).
Qed.

(** X21. A dry run, whatever its outcome, unlinks nothing; on a
    deduplicator that holds a map it changes neither the deduplicator
    nor the world; and the list it returns has one entry per duplicate,
    two when a directory of labels is given. *)
Theorem dry_run_unlinks_nothing (self : ImageDeduplicator)
    (dir : PathLike) (labels : option PathLike) (thr : PyFloat.float)
    (w : DWorld) r self' w' :
  delete_duplicates self dir labels thr true w = (r, self', w') ->
  unlinked w' = unlinked w /\
  (duplicates_map self <> None -> self' = self /\ w' = w) /\
  forall l, r = TOk l ->
    exists dups,
      duplicates self' = Some dups /\
      List.length l
      = (List.length dups * match labels with Some _ => 2 | None => 1 end)%nat.
Proof.
  intros H. unfold delete_duplicates in H.
  assert (Hloop : forall s0 w0,
            (let image_dir := Path_of dir in
             let labels_dir := option_map Path_of labels in
             match duplicates s0 with
             | None => (TRaise TypeError, s0, w0)
             | Some dups =>
                 match delete_loop image_dir labels_dir true dups [] w0 with
                 | (TRaise e, w) => (TRaise e, s0, w)
                 | (TOk removed_files, w) => (TOk removed_files, s0, w)
                 end
             end) = (r, self', w') ->
            self' = s0 /\ w' = w0 /\
            forall l, r = TOk l ->
              exists dups,
                duplicates self' = Some dups /\
                List.length l
                = (List.length dups * match labels with Some _ => 2 | None => 1 end)%nat).
  { intros s0 w0 H0. simpl in H0.
    destruct (duplicates s0) as [ds|] eqn:Hds.
    - destruct (delete_loop (Path_of dir) (option_map Path_of labels)
                  true ds [] w0) as [r1 w1] eqn:E.
      pose proof (delete_loop_log _ _ _ _ _ _ E) as (_ & _ & Hw & _).
      specialize (Hw eq_refl). subst w1.
      destruct r1 as [l1|e]; injection H0 as <- <- <-;
        (split; [reflexivity|split; [reflexivity|]]);
        intros l Hl; [|discriminate].
      injection Hl as <-. exists ds. split; [exact Hds|].
      apply delete_loop_dry in E. simpl in E. rewrite E.
      now destruct labels.
    - injection H0 as <- <- <-. split; [reflexivity|].
      split; [reflexivity|]. intros l Hl. discriminate. }
  destruct (duplicates_map self) as [m0|] eqn:Hm.
  - apply Hloop in H. destruct H as (-> & -> & Hl).
    split; [reflexivity|]. split; [auto|exact Hl].
  - destruct (find_duplicates self dir thr w) as [[r0 s0] w0] eqn:Ef.
    assert (Hu : unlinked w0 = unlinked w).
    { unfold find_duplicates in Ef.
      destruct (cnn_find_duplicates w (unlinked w) dir thr);
        [destruct (find_loop _ _ _)|];
        injection Ef as <- <- <-; reflexivity. }
    destruct r0 as [m1|e].
    + apply Hloop in H. destruct H as (-> & -> & Hl).
      split; [exact Hu|]. split; [congruence|exact Hl].
    + injection H as <- <- <-.
      split; [exact Hu|]. split; [congruence|].
      intros l Hl. discriminate.
Qed.

(** X22. [visualize_duplicates] never draws: it raises [ValueError]
    without a map, and with a map [TypeError] on an [int] and
    [UnboundLocalError] on a name or path; [plot_duplicates] is never
    called and the world is as it was. *)
Theorem visualize_duplicates_never_plots (self : ImageDeduplicator)
    (target : Target) (w : DWorld) :
  snd (visualize_duplicates self target w) = w /\
  fst (visualize_duplicates self target w)
    = TRaise (match duplicates_map self, target with
              | None, _ => Builtin ValueError
              | Some _, TInt _ => TypeError
              | Some _, _ => UnboundLocalError
              end).
Proof.
  unfold visualize_duplicates.
  destruct (duplicates_map self) as [m|]; [|split; reflexivity].
  destruct target; split; reflexivity.
Qed.

End DedupProperties.

(** ** The further properties on worked inputs *)

(** A second call after an [open()] that returned, and after one that
    raised. *)
Lemma second_open_noop_or_retry_witness :
  @open Demo.libs
    (fst (after (@open Demo.libs Demo.session (Examples.camera [] []))))
    (snd (after (@open Demo.libs Demo.session (Examples.camera [] []))))
  = (Ok tt,
     fst (after (@open Demo.libs Demo.session (Examples.camera [] []))),
     snd (after (@open Demo.libs Demo.session (Examples.camera [] [])))) /\
  next_cap
    (backend
       (snd (after (@open Demo.libs
                      (fst (after (@open Demo.libs Demo.session
                                     Examples.no_camera)))
                      (snd (after (@open Demo.libs Demo.session
                                     Examples.no_camera)))))))
  = 2.
Proof.
  split.
  - exact (proj1 (@second_open_noop_or_retry Demo.libs Demo.session
                    (Examples.camera [] [])) eq_refl).
  - destruct (proj2 (@second_open_noop_or_retry Demo.libs Demo.session
                       Examples.no_camera) CameraOpenError eq_refl)
      as (_ & _ & _ & H).
    exact H.
Defined.

(** A camera that does not open. *)
Lemma open_failure_releases_capture_witness :
  result (@open Demo.libs Demo.session Examples.no_camera)
    = Raise CameraOpenError /\
  released (backend (snd (after (@open Demo.libs Demo.session
                                   Examples.no_camera))))
    = [0].
Proof.
  pose proof (@open_failure_releases_capture Demo.libs Demo.session
                Examples.no_camera eq_refl eq_refl) as (H1 & _ & H2 & _).
  split; [exact H1|exact H2].
Defined.

(** A camera that opens, asked for 640 x 480. *)
Lemma open_applies_configuration_witness :
  prop_sets (backend (snd (after (@open Demo.libs Examples.session_640
                                    (Examples.camera [] [])))))
    = [(0, CAP_PROP_FRAME_HEIGHT, of_Z 480);
       (0, CAP_PROP_FRAME_WIDTH, of_Z 640)].
Proof.
  pose proof (@open_applies_configuration Demo.libs Examples.session_640
                (Examples.camera [] []) eq_refl eq_refl) as H.
  destruct H as (_ & _ & H & _).
  - split; intros x E; injection E as <-; vm_compute; reflexivity.
  - exact H.
Defined.

(** Open, read, close, open and read again, then close. *)
Lemma close_leaves_no_capture_open_witness :
  map (fun h =>
         is_Opened
           (status
              (backend
                 (snd (run_ops
                         ([Call_open; Call_read; Call_close; Call_open;
                           Call_read] ++ [Call_close])
                         Examples.session_640
                         (Examples.camera [Some 7; Some 8] [])))) h))
    [0; 1; 2]
  = [false; false; false] /\
  In 0 (released
          (backend
             (snd (run_ops
                     ([Call_open; Call_read; Call_close; Call_open;
                       Call_read] ++ [Call_close])
                     Examples.session_640
                     (Examples.camera [Some 7; Some 8] []))))).
Proof.
  assert (H : forall st : CapStatus, st <> Opened -> is_Opened st = false)
    by (intros [| |] Hst; [reflexivity|contradiction|reflexivity]).
  assert (F : config_fits Examples.config_640)
    by (split; intros x E; injection E as <-; vm_compute; reflexivity).
  assert (T : tidy Examples.config_640 Examples.session_640
                (Examples.camera [Some 7; Some 8] [])).
  { split; [reflexivity|]. split; [|split].
    - split; [apply new_session_inv|intros _; reflexivity].
    - intros h Hh. discriminate Hh.
    - intros h Hh. discriminate Hh. }
  pose proof (@close_leaves_no_capture_open Demo.libs Examples.config_640
                [Call_open; Call_read; Call_close; Call_open; Call_read]
                Examples.session_640
                (Examples.camera [Some 7; Some 8] []) F T eq_refl) as C.
  split.
  - cbn [map].
    rewrite (H _ (proj1 (C 0))), (H _ (proj1 (C 1))), (H _ (proj1 (C 2))).
    reflexivity.
  - apply (proj2 (C 0)). vm_compute. reflexivity.
Defined.

(** Two frames, then a failed read. *)
Lemma iteration_yields_frames_in_order_witness :
  fst (fst (fst (@nexts Demo.libs (List.length [7; 8]) __iter__
                   Demo.session
                   (Examples.camera [Some 7; Some 8; None] []))))
    = [Ok 7; Ok 8].
Proof.
  exact (proj1 (@iteration_yields_frames_in_order Demo.libs Demo.session
                  (Examples.camera [Some 7; Some 8; None] [])
                  [7; 8] [None]
                  (new_session_inv None _) eq_refl eq_refl)).
Defined.

(** A source whose first read fails. *)
Lemma failed_read_ends_iteration_witness :
  fst (fst (fst (@nexts Demo.libs 3 __iter__ Demo.session
                   (Examples.camera [None; Some 7] []))))
    = [Raise CameraReadError; Raise StopIteration; Raise StopIteration].
Proof.
  refine (proj1 (@failed_read_ends_iteration Demo.libs GEN_CREATED 2
                   Demo.session (Examples.camera [None; Some 7] [])
                   _ (new_session_inv None _) eq_refl eq_refl)).
  discriminate.
Defined.

(** Two passes on three frames, with no interval. *)
Lemma completed_passes_save_frames_in_order_witness :
  exists v1 s1 w1,
    loop_iter (1 + 1) (["out"%string] : @Path Demo.libs) pos_zero "frame"
      loop_start Examples.opened_session
      (Examples.opened_camera [Some 7; Some 8; Some 9] [true; true])
      = Some (v1, s1, w1) /\
    s1 = Examples.opened_session /\
    frame_count v1 = 2%N /\
    map snd (files (disk w1)) = [8; 7].
Proof.
  pose (w := Examples.opened_camera [Some 7; Some 8; Some 9] [true; true]).
  let st := eval vm_compute in
    (loop_iter 2 (["out"%string] : @Path Demo.libs) pos_zero "frame"
       loop_start Examples.opened_session w) in
  match st with
  | Some (?v1, ?s1, ?w1) =>
      exists v1, s1, w1;
      pose proof (@completed_passes_save_frames_in_order Demo.libs
                    ["out"%string] pos_zero "frame" 2 loop_start
                    Examples.opened_session w 0 v1 s1 w1
                    ltac:(vm_compute; reflexivity)
                    ltac:(vm_compute; reflexivity)
                    ltac:(vm_compute; reflexivity)) as (H1 & _ & _)
  end.
  split; [vm_compute; reflexivity|].
  split; [exact H1|]. split; vm_compute; reflexivity.
Defined.

(** A pass through an open gate. *)
Lemma pass_saves_only_through_gate_witness :
  exists v' s' w',
    loop_try (["out"%string] : @Path Demo.libs) pos_zero "frame"
      loop_start Examples.opened_session
      (Examples.opened_camera [Some 7] [true])
      = (Ok v', s', w') /\
    frame_count v' = N.succ (frame_count loop_start).
Proof.
  pose (w := Examples.opened_camera [Some 7] [true]).
  let st := eval vm_compute in
    (loop_try (["out"%string] : @Path Demo.libs) pos_zero "frame"
       loop_start Examples.opened_session w) in
  match st with
  | (Ok ?v1, ?s1, ?w1) =>
      exists v1, s1, w1;
      pose proof (@pass_saves_only_through_gate Demo.libs
                    ["out"%string] pos_zero "frame" loop_start
                    Examples.opened_session w 0 v1 s1 w1
                    ltac:(vm_compute; reflexivity)
                    ltac:(vm_compute; reflexivity)
                    ltac:(vm_compute; reflexivity)) as [H _]
  end.
  split; [vm_compute; reflexivity|].
  apply H. vm_compute. discriminate.
Defined.

(** A recording of one frame that ends on a failed read. *)
Lemma save_stream_never_closes_witness :
  exists r s' w',
    @save_stream Demo.libs (2 + 1) (PStr "out") pos_zero "frame"
      Demo.session (Examples.camera [Some 7; None] [true])
      = Some (r, s', w') /\
    _is_open s' = true /\ released (backend w') = [].
Proof.
  pose (w := Examples.camera [Some 7; None] [true]).
  let st := eval vm_compute in
    (@save_stream Demo.libs 3 (PStr "out") pos_zero "frame"
       Demo.session w) in
  match st with
  | Some (?r1, ?s1, ?w1) =>
      exists r1, s1, w1;
      pose proof (@save_stream_never_closes Demo.libs 3 (PStr "out")
                    pos_zero "frame" Demo.session w r1 s1 w1
                    (new_session_inv None _)
                    ltac:(vm_compute; reflexivity)) as [H1 H2]
  end.
  split; [vm_compute; reflexivity|].
  split; [rewrite H1; reflexivity|rewrite H2; reflexivity].
Defined.

(** A camera that does not open, and a disk where the directory cannot be
    made. *)
Lemma save_stream_setup_failures_witness :
  (exists w',
     @save_stream Demo.libs 5 (PStr "out") pos_zero "frame" Demo.session
       Examples.no_camera
     = Some (Raise CameraOpenError, Demo.session, w')) /\
  (exists w',
     @save_stream Demo.libs 5 (PStr "out") pos_zero "frame" Demo.session
       Examples.camera_full_disk
     = Some (Raise OSError, opened_with Demo.session 0, w')).
Proof.
  split.
  - destruct (proj1 (@save_stream_setup_failures Demo.libs 5 (PStr "out")
                       pos_zero "frame" Demo.session Examples.no_camera
                       eq_refl) eq_refl) as (w' & H & _).
    exists w'. exact H.
  - destruct (proj2 (@save_stream_setup_failures Demo.libs 5 (PStr "out")
                       pos_zero "frame" Demo.session
                       Examples.camera_full_disk eq_refl) eq_refl)
      as (w' & H & _).
    + split; intros x E; discriminate E.
    + reflexivity.
    + exists w'. exact H.
Defined.

(** Reading a frame and saving it. *)
Lemma saved_frame_is_backend_frame_witness :
  files (disk (snd (bind (@read Demo.libs)
                      (fun frame =>
                         save_frame frame
                           (PPath (["out"; "a.jpg"]%string
                                   : @Path Demo.libs)))
                      Examples.opened_session
                      (Examples.opened_camera [Some 7] [true]))))
    = [("out/a.jpg"%string, 7)].
Proof.
  pose proof (@saved_frame_is_backend_frame Demo.libs
                Examples.opened_session
                (Examples.opened_camera [Some 7] [true]) 0 7
                (["out"; "a.jpg"]%string : @Path Demo.libs)
                (fun x => eq_refl) eq_refl eq_refl eq_refl eq_refl eq_refl)
    as (_ & H & _).
  exact H.
Defined.

(** A dry run over the worked directory. *)
Lemma dry_run_reports_without_removing_witness :
  fst (@ImageValidator.cleanup_corrupted_images Examples.fs_libs
         Examples.validator "data"%string true true Examples.dataset)
    = TOk (@ImageValidator.report Examples.fs_libs
             ["data/a.jpg"; "data/b.JPG"; "data/c.png"]%string
             ["data/b.JPG"; "data/c.png"]%string).
Proof.
  destruct (@dry_run_reports_without_removing Examples.fs_libs
              Examples.validator "data"%string true Examples.dataset
              eq_refl) as (w' & E & _).
  rewrite E. reflexivity.
Defined.

Lemma string_eqb_eq (a b : string) : String.eqb a b = true <-> a = b.
Proof. apply String.eqb_eq. Qed.

Lemma dataset_listing_NoDup :
  NoDup (ImageValidator.rglob Examples.dataset "data"%string).
Proof.
  simpl. repeat constructor; simpl; intuition discriminate.
Qed.

(** The same directory cleaned for good. *)
Lemma cleanup_removes_what_dry_run_reports_witness :
  exists w',
    @ImageValidator.cleanup_corrupted_images Examples.fs_libs
      Examples.validator "data"%string false false Examples.dataset
    = (TOk (@ImageValidator.report Examples.fs_libs
              ["data/a.jpg"; "data/b.JPG"; "data/c.png"]%string
              ["data/b.JPG"; "data/c.png"]%string), w') /\
    ImageValidator.removed w' = ["data/c.png"; "data/b.JPG"]%string.
Proof.
  destruct (@cleanup_removes_what_dry_run_reports Examples.fs_libs
              string_eqb_eq Examples.validator "data"%string false
              Examples.dataset dataset_listing_NoDup eq_refl
              (fun p _ => eq_refl)) as (w' & E & Ed & Er).
  exists w'. split.
  - rewrite E, Ed. reflexivity.
  - rewrite Er. reflexivity.
Defined.

(** A file that a cleanup removed. *)
Lemma cleanup_removes_only_failing_images_witness :
  ImageValidator.verifies Examples.dataset "data/b.JPG"%string = false /\
  In (Examples.lower_of (Examples.suffix_of "data/b.JPG"))
     (ImageValidator.extensions Examples.validator).
Proof.
  destruct (@cleanup_removes_only_failing_images Examples.fs_libs
              Examples.validator "data"%string false false
              Examples.dataset "data/b.JPG"%string)
    as [[]|(_ & _ & _ & H1 & H2)].
  - change (In "data/b.JPG"%string ["data/c.png"; "data/b.JPG"]%string).
    right. left. reflexivity.
  - split; [exact H2|exact H1].
Defined.

(** The cleaned directory cleaned again. *)
Lemma cleanup_twice_removes_nothing_more_witness :
  exists w'',
    @ImageValidator.cleanup_corrupted_images Examples.fs_libs
      Examples.validator "data"%string false false
      (snd (@ImageValidator.cleanup_corrupted_images Examples.fs_libs
              Examples.validator "data"%string false false
              Examples.dataset))
    = (TOk (@ImageValidator.report Examples.fs_libs
              ["data/a.jpg"%string] []), w'').
Proof.
  destruct (@cleanup_twice_removes_nothing_more Examples.fs_libs
              string_eqb_eq Examples.validator "data"%string false
              false false Examples.dataset
              (@ImageValidator.report Examples.fs_libs
                 ["data/a.jpg"; "data/b.JPG"; "data/c.png"]%string
                 ["data/b.JPG"; "data/c.png"]%string)
              (snd (@ImageValidator.cleanup_corrupted_images
                      Examples.fs_libs Examples.validator "data"%string
                      false false Examples.dataset))
              dataset_listing_NoDup eq_refl) as (w'' & E & _).
  exists w''. rewrite E. reflexivity.
Defined.

(** A directory that is there, and one that is not. *)
Lemma cleanup_FileNotFoundError_iff_missing_witness :
  fst (@ImageValidator.cleanup_corrupted_images Examples.fs_libs
         Examples.validator "nowhere"%string true false Examples.dataset)
    = TRaise FileNotFoundError /\
  snd (@ImageValidator.cleanup_corrupted_images Examples.fs_libs
         Examples.validator "nowhere"%string true false Examples.dataset)
    = Examples.dataset.
Proof.
  destruct (@cleanup_FileNotFoundError_iff_missing Examples.fs_libs
              string_eqb_eq Examples.validator "nowhere"%string true false
              Examples.dataset (NoDup_nil _)) as [H1 H2].
  split; [apply H1; reflexivity|apply H2; reflexivity].
Defined.

(** The search on the worked photos. *)
Lemma find_duplicates_collects_witness :
  exists self' w',
    @Deduplicator.find_duplicates Examples.dedup_libs Deduplicator.init
      "photos"%string pos_zero Examples.photos
    = (TOk Examples.copies, self', w') /\
    Deduplicator.duplicates_map self' = Some Examples.copies.
Proof.
  destruct (@find_duplicates_collects Examples.dedup_libs
              Deduplicator.init "photos"%string pos_zero Examples.photos
              Examples.copies eq_refl) as (self' & w' & E & Hm & _).
  exists self', w'. split; [exact E|exact Hm].
Defined.

Lemma copies_symmetric : Deduplicator.symmetric Examples.copies.
Proof.
  unfold Deduplicator.symmetric, Examples.copies.
  intros k l f Hk Hf. simpl in Hk.
  destruct Hk as [E|[E|[E|[]]]]; injection E as <- <-; simpl in Hf.
  - destruct Hf as [<-|[]]. exists ["a.jpg"%string]. simpl. auto.
  - destruct Hf as [<-|[]]. exists ["b.jpg"%string]. simpl. auto.
  - destruct Hf.
Qed.

(** Both copies go. *)
Lemma delete_duplicates_keeps_no_copy_witness :
  In "photos/a.jpg"%string
    (Deduplicator.unlinked
       (snd (@Deduplicator.delete_duplicates Examples.dedup_libs
               Deduplicator.init "photos"%string None pos_zero false
               Examples.photos))) /\
  In "photos/b.jpg"%string
    (Deduplicator.unlinked
       (snd (@Deduplicator.delete_duplicates Examples.dedup_libs
               Deduplicator.init "photos"%string None pos_zero false
               Examples.photos))).
Proof.
  pose proof (@delete_duplicates_keeps_no_copy Examples.dedup_libs
                "photos"%string None pos_zero Examples.photos
                Examples.copies ["photos/b.jpg"; "photos/a.jpg"]%string
                (snd (fst (@Deduplicator.delete_duplicates
                             Examples.dedup_libs Deduplicator.init
                             "photos"%string None pos_zero false
                             Examples.photos)))
                (snd (@Deduplicator.delete_duplicates
                        Examples.dedup_libs Deduplicator.init
                        "photos"%string None pos_zero false
                        Examples.photos))
                copies_symmetric eq_refl eq_refl) as H.
  split.
  - apply (H "a.jpg"%string ["b.jpg"%string]);
      [simpl; auto|discriminate].
  - apply (H "b.jpg"%string ["a.jpg"%string]);
      [simpl; auto|discriminate].
Defined.

(** A dry run on one directory, then a deletion on another. *)
Lemma dry_run_fixes_later_deletion_witness :
  exists dups self1 w1,
    @Deduplicator.delete_duplicates Examples.dedup_libs Deduplicator.init
      "photos"%string None pos_zero true Examples.photos
    = (TOk (map (fun f => ("photos" ++ "/" ++ f)%string) dups), self1, w1)
    /\ Deduplicator.cnn_calls w1 = [("photos"%string, pos_zero)].
Proof.
  destruct (@dry_run_fixes_later_deletion Examples.dedup_libs
              "photos"%string "other"%string pos_zero (of_Z 1)
              Examples.photos Examples.copies eq_refl)
    as (dups & self1 & w1 & E & _ & Hc & _).
  exists dups, self1, w1. split; [exact E|exact Hc].
Defined.

(** A dry run with a directory of labels. *)
Lemma dry_run_unlinks_nothing_witness :
  Deduplicator.unlinked
    (snd (@Deduplicator.delete_duplicates Examples.dedup_libs
            Deduplicator.init "photos"%string (Some "labels"%string)
            pos_zero true Examples.photos))
    = [] /\
  exists dups,
    Deduplicator.duplicates
      (snd (fst (@Deduplicator.delete_duplicates Examples.dedup_libs
                   Deduplicator.init "photos"%string
                   (Some "labels"%string) pos_zero true Examples.photos)))
      = Some dups /\
    List.length dups * 2 = 4.
Proof.
  pose proof (@dry_run_unlinks_nothing Examples.dedup_libs
                Deduplicator.init "photos"%string (Some "labels"%string)
                pos_zero Examples.photos
                (TOk ["photos/b.jpg"; "labels/b.txt"; "photos/a.jpg";
                      "labels/a.txt"]%string)
                (snd (fst (@Deduplicator.delete_duplicates
                             Examples.dedup_libs Deduplicator.init
                             "photos"%string (Some "labels"%string)
                             pos_zero true Examples.photos)))
                (snd (@Deduplicator.delete_duplicates
                        Examples.dedup_libs Deduplicator.init
                        "photos"%string (Some "labels"%string) pos_zero
                        true Examples.photos))
                eq_refl) as (H1 & _ & H2).
  split; [exact H1|].
  destruct (H2 _ eq_refl) as (dups & Hd & Hl).
  exists dups. split; [exact Hd|]. rewrite <- Hl. reflexivity.
Defined.
